(** * File-storage gateway: upload, list, delete, statistics, formats

    A shallow embedding of the request handlers of [src/index.js] and the
    properties of the file lifecycle and of the statistics aggregation.

    The handlers talk to two external services, a Cloud Storage bucket and
    a Firestore database.  Both are modelled as in-memory finite maps held
    in a [World]; every [await]ed call to a service goes through [external],
    which records the call in a trace and lets a fault schedule make the
    call reject.  Handlers are functions in a state-and-exception monad
    over [World]; [try]/[catch] is [try_catch].

    What the services do is taken from their clients' documented behaviour:
    [save] creates or replaces an object, [delete] of an object that is not
    there rejects, [getFiles] lists every object, [add] stores a document
    under a new identifier, [get] of a missing document has no data, and
    [delete] of a document always goes through.  The order of a listing is
    the one of the finite map; no property below depends on it.

    The download and the authentication handler come after these, over a
    [Site] that adds to the [World] what only they use: the [users]
    collection and the network.  The weather handler, which relays a
    third party's reply, is left out. *)

From stdpp Require Import gmap strings list fin_maps pretty.
From Stdlib Require Import Ascii QArith Qround Qabs Lqa.
Close Scope Q_scope.
Open Scope string_scope.

(** ** Data model *)

(** An entry of [req.files] as multer's memory storage leaves it. *)
Record UploadedFile := mkUploadedFile {
  buffer : list Byte.byte;
  mimetype : string
}.

(** An object of the bucket: the payload and the two metadata fields the
    handlers read.  The storage service reports [size] as a decimal string. *)
Record BlobObject := mkBlobObject {
  content : list Byte.byte;
  contentType : option string;
  size_field : option string
}.

(** What [file.getMetadata()] resolves to. *)
Record Metadata := mkMetadata {
  md_size : option string;
  md_contentType : option string
}.

(** A document of the [files] collection. *)
Record FileRecord := mkFileRecord {
  fileName : string;
  uploadDate : Z;
  fileURL : string
}.

(** An element of the array answered by [GET /api/files]. *)
Record FileEntry := mkFileEntry {
  entry_id : string;
  entry_fileName : string;
  entry_uploadDate : string;
  entry_fileURL : string
}.

(** A JavaScript number of the fragment: an exact rational, or [NaN].
    The embedding is exact where the source's doubles are, that is for
    integers up to [2^53] and their quotients by a power of two. *)
Inductive number :=
| Num (q : Q)
| NaN.

(** The value a property lookup or an array index can produce in the
    format classifier. *)
Inductive js_value :=
| VString (s : string)
| VUndefined
| VInherited (name : string).

#[global] Instance js_value_eq_dec : EqDecision js_value.
Proof. solve_decision. Defined.

(** ** Calls to the external services *)

Inductive Call :=
| BlobSave (path : string) (payload : list Byte.byte) (ctype : string)
| BlobGetSignedUrl (path : string)
| BlobDelete (path : string)
| BlobGetMetadata (path : string)
| BucketGetFiles
| CollectionAdd (record : FileRecord)
| CollectionGet (collection : string)
| DocGet (id : string)
| DocDelete (id : string).

Inductive Error :=
| ServiceFailure (c : Call)
| NoSuchObject (path : string).

Inductive Level := LogError | LogWarn.

(** The state of everything outside the process.  [faults] is the fault
    schedule: its i-th flag tells whether the i-th call to a service made
    from now on rejects; an exhausted schedule lets every call through. *)
Record World := mkWorld {
  bucket : gmap string BlobObject;
  files_coll : gmap string FileRecord;
  downloads_coll : gset string;
  clock : Z;
  faults : list bool;
  trace : list (Call * bool);
  console : list (Level * string)
}.

Definition set_bucket (b : gmap string BlobObject) (w : World) : World :=
  mkWorld b (files_coll w) (downloads_coll w) (clock w) (faults w) (trace w) (console w).

Definition set_files_coll (c : gmap string FileRecord) (w : World) : World :=
  mkWorld (bucket w) c (downloads_coll w) (clock w) (faults w) (trace w) (console w).

Definition set_faults (f : list bool) (w : World) : World :=
  mkWorld (bucket w) (files_coll w) (downloads_coll w) (clock w) f (trace w) (console w).

Definition record_call (c : Call) (ok : bool) (w : World) : World :=
  mkWorld (bucket w) (files_coll w) (downloads_coll w) (clock w) (faults w)
          (trace w ++ [(c, ok)]) (console w).

Definition record_log (l : Level) (msg : string) (w : World) : World :=
  mkWorld (bucket w) (files_coll w) (downloads_coll w) (clock w) (faults w)
          (trace w) (console w ++ [(l, msg)]).

(** ** The monad of handlers *)

Inductive Outcome (A : Type) :=
| Returned (a : A)
| Thrown (e : Error).
Arguments Returned {A} a.
Arguments Thrown {A} e.

Definition M (A : Type) : Type := World → Outcome A * World.

Definition ret {A} (a : A) : M A := fun w => (Returned a, w).

Definition bind {A B} (m : M A) (k : A → M B) : M B := fun w =>
  match m w with
  | (Returned a, w') => k a w'
  | (Thrown e, w') => (Thrown e, w')
  end.

Definition try_catch {A} (body : M A) (handler : Error → M A) : M A := fun w =>
  match body w with
  | (Returned a, w') => (Returned a, w')
  | (Thrown e, w') => handler e w'
  end.

Definition get_world : M World := fun w => (Returned w, w).

Definition console_error (msg : string) : M unit := fun w =>
  (Returned tt, record_log LogError msg w).

Definition console_warn (msg : string) : M unit := fun w =>
  (Returned tt, record_log LogWarn msg w).

Declare Scope handler_scope.
Delimit Scope handler_scope with handler.
Notation "'let*' x ':=' m 'in' k" := (bind m (fun x => k))
  (at level 10, x name, m at level 100, k at level 200,
   format "'let*'  x  ':='  m  'in' '//' k") : handler_scope.
Notation "'let*' '_' ':=' m 'in' k" := (bind m (fun _ => k))
  (at level 10, m at level 100, k at level 200,
   format "'let*'  '_'  ':='  m  'in' '//' k") : handler_scope.
Open Scope handler_scope.

Definition succeeded {A} (o : Outcome A) : bool :=
  match o with Returned _ => true | Thrown _ => false end.

(** Does a schedule make the next call reject? *)
Definition next_fault (fs : list bool) : bool :=
  match fs with
  | true :: _ => true
  | _ => false
  end.

Definition fault_due (w : World) : bool := next_fault (faults w).

(** One call to a service.  It uses up one flag of the schedule.  A
    scheduled fault rejects the call before it has any effect; otherwise
    [effect] is what the service does, which may itself reject.  Either way
    the call and its outcome enter the trace. *)
Definition external {A} (c : Call) (effect : M A) : M A := fun w =>
  let w1 := set_faults (tail (faults w)) w in
  if fault_due w then (Thrown (ServiceFailure c), record_call c false w1)
  else
    let '(o, w') := effect w1 in
    (o, record_call c (succeeded o) w').

(** ** JavaScript helpers of the fragment

    Strings are taken over the ASCII range. *)

Definition is_white_space (c : ascii) : bool :=
  let n := nat_of_ascii c in
  ((9 <=? n) && (n <=? 13) || (n =? 32))%nat.

Fixpoint trim_start (s : string) : string :=
  match s with
  | String c s' => if is_white_space c then trim_start s' else s
  | EmptyString => s
  end.

Definition digit_value (c : ascii) : option Z :=
  let n := nat_of_ascii c in
  if ((48 <=? n) && (n <=? 57))%nat then Some (Z.of_nat (n - 48)) else None.

(** The value of the longest prefix of decimal digits, [None] when the
    string starts with no digit. *)
Fixpoint leading_digits (s : string) (acc : option Z) : option Z :=
  match s with
  | String c s' =>
      match digit_value c with
      | Some d => leading_digits s' (Some (10 * default 0 acc + d)%Z)
      | None => acc
      end
  | EmptyString => acc
  end.

(** [parseInt(s, 10)]. *)
Definition parseInt (s : string) : number :=
  let s := trim_start s in
  let '(sign, s) :=
    match s with
    | String "-" s' => ((-1)%Z, s')
    | String "+" s' => (1%Z, s')
    | _ => (1%Z, s)
    end in
  match leading_digits s None with
  | Some z => Num (inject_Z (sign * z)%Z)
  | None => NaN
  end.

Definition num_add (a b : number) : number :=
  match a, b with
  | Num x, Num y => Num (x + y)%Q
  | _, _ => NaN
  end.

(** [a / b] for a divisor other than zero, the only case the source has;
    a zero divisor is answered [NaN]. *)
Definition num_div (a b : number) : number :=
  match a, b with
  | Num x, Num y => if Qeq_bool y 0 then NaN else Num (x / y)%Q
  | _, _ => NaN
  end.

Fixpoint zeros (k : nat) : string :=
  match k with
  | O => EmptyString
  | S k' => String "0" (zeros k')
  end.

(** The digits of [n] padded with zeros to [f + 1] places, with a point
    before the last [f] of them. *)
Definition fixed_digits (n : Z) (f : nat) : string :=
  let m := pretty (Z.to_N n) in
  let m := zeros (f + 1 - String.length m) ++ m in
  let k := String.length m in
  if (f =? 0)%nat then m
  else String.substring 0 (k - f) m ++ "." ++ String.substring (k - f) f m.

(** [x.toFixed(f)] for [x] below [10^21]: [n] is the integer nearest to
    [|x| * 10^f], the larger one on a tie; the result is [fixed_digits n f],
    with a minus sign in front when [x < 0]. *)
Definition toFixed (x : number) (f : nat) : string :=
  match x with
  | NaN => "NaN"
  | Num q =>
      let sign := if Qle_bool 0 q then EmptyString else "-" in
      let n := Qfloor (Qabs q * inject_Z (10 ^ Z.of_nat f)%Z + (1 # 2))%Q in
      sign ++ fixed_digits n f
  end.

(** [s.split(sep)] for a separator of one character. *)
Fixpoint split_on (sep : ascii) (s : string) : list string :=
  match s with
  | EmptyString => [EmptyString]
  | String c s' =>
      if Ascii.eqb c sep then EmptyString :: split_on sep s'
      else match split_on sep s' with
           | seg :: segs => String c seg :: segs
           | [] => [String c EmptyString]
           end
  end.

(** [array[i]]. *)
Definition element (l : list string) (i : nat) : js_value :=
  match l !! i with
  | Some s => VString s
  | None => VUndefined
  end.

Definition non_empty (s : string) : bool :=
  match s with
  | EmptyString => false
  | String _ _ => true
  end.

(** Truthiness, as [||] and [if] test it. *)
Definition truthy (v : js_value) : bool :=
  match v with
  | VString s => non_empty s
  | VUndefined => false
  | VInherited _ => true
  end.

(** The properties every object literal inherits from [Object.prototype]. *)
Definition object_prototype_properties : list string :=
  [ "constructor"; "hasOwnProperty"; "isPrototypeOf"; "propertyIsEnumerable";
    "toLocaleString"; "toString"; "valueOf"; "__proto__";
    "__defineGetter__"; "__defineSetter__"; "__lookupGetter__"; "__lookupSetter__" ].

(** [table[key]] for an object literal [table] with string-valued own
    properties: an own property first, an inherited one next. *)
Definition property (table : gmap string string) (key : string) : js_value :=
  match table !! key with
  | Some label => VString label
  | None =>
      if bool_decide (key ∈ object_prototype_properties) then VInherited key
      else VUndefined
  end.

(** A [Map] from format to count, in insertion order. *)
Fixpoint map_get (m : list (js_value * nat)) (k : js_value) : option nat :=
  match m with
  | [] => None
  | (k', v) :: m' => if decide (k' = k) then Some v else map_get m' k
  end.

Fixpoint map_set (m : list (js_value * nat)) (k : js_value) (v : nat) : list (js_value * nat) :=
  match m with
  | [] => [(k, v)]
  | (k', v') :: m' =>
      if decide (k' = k) then (k, v) :: m' else (k', v') :: map_set m' k v
  end.

(** ** The storage bucket *)

(** [fileRef.save(buffer, { contentType })]: creates the object or replaces
    the one already at [path]. *)
Definition blob_save (path : string) (payload : list Byte.byte) (ctype : string) : M unit :=
  external (BlobSave path payload ctype) (fun w =>
    let obj := mkBlobObject payload (Some ctype) (Some (pretty (length payload))) in
    (Returned tt, set_bucket (<[path := obj]> (bucket w)) w)).

(** [fileRef.delete()]: rejects when there is no object at [path], as the
    storage client does unless it is called with [ignoreNotFound]. *)
Definition blob_delete (path : string) : M unit :=
  external (BlobDelete path) (fun w =>
    match bucket w !! path with
    | Some _ => (Returned tt, set_bucket (delete path (bucket w)) w)
    | None => (Thrown (NoSuchObject path), w)
    end).

(** [bucket.getFiles()]: the names of all objects of the bucket. *)
Definition bucket_getFiles : M (list string) :=
  external BucketGetFiles (fun w => (Returned (map_to_list (bucket w)).*1, w)).

(** [file.getMetadata()]. *)
Definition blob_getMetadata (path : string) : M Metadata :=
  external (BlobGetMetadata path) (fun w =>
    match bucket w !! path with
    | Some obj => (Returned (mkMetadata (size_field obj) (contentType obj)), w)
    | None => (Thrown (NoSuchObject path), w)
    end).

(** ** The document database *)

(** [db.collection("files").add(data)]: stores [data] under an identifier
    that no document of the collection has yet.  The service draws it at
    random; here it is [fresh]. *)
Definition collection_add (record : FileRecord) : M string :=
  external (CollectionAdd record) (fun w =>
    let id := fresh (dom (files_coll w)) in
    (Returned id, set_files_coll (<[id := record]> (files_coll w)) w)).

(** [db.collection("files").get()], as the list of [(doc.id, doc.data())]. *)
Definition files_get : M (list (string * FileRecord)) :=
  external (CollectionGet "files") (fun w => (Returned (map_to_list (files_coll w)), w)).

(** [db.collection("downloads").get()], reduced to the snapshot's [size]. *)
Definition downloads_get : M nat :=
  external (CollectionGet "downloads") (fun w => (Returned (size (downloads_coll w)), w)).

(** [(await fileDoc.get()).data()]: [None] is [undefined]. *)
Definition doc_get (id : string) : M (option FileRecord) :=
  external (DocGet id) (fun w => (Returned (files_coll w !! id), w)).

(** [fileDoc.delete()]. *)
Definition doc_delete (id : string) : M unit :=
  external (DocDelete id) (fun w =>
    (Returned tt, set_files_coll (delete id (files_coll w)) w)).

(** ** Responses *)

Record Statistics := mkStatistics {
  totalDownloads : nat;
  storageUsed : string;
  totalFiles : nat
}.

Inductive Body :=
| Message (message : string)
| Uploaded (message : string) (fileURLs : list string)
| FileList (files : list FileEntry)
| StatisticsBody (stats : Statistics)
| Formats (formats : list (js_value * nat))
| ErrorBody (error : string).

Record Response := mkResponse {
  status : nat;
  body : Body
}.

Definition Handler : Type := World → Outcome Response * World.

Section Gateway.

(** The link [fileRef.getSignedUrl({action: "read", expires: "03-09-2491"})]
    resolves to for the object at a path; it is fixed by the service
    account's key. *)
Variable signedUrl : string → string.

(** [timestamp.toDate().toLocaleString()]. *)
Variable toLocaleString : Z → string.

(** The table imported from [./mimeTypes.js], as its own properties. *)
Variable mimeTypeMapping : gmap string string.

Definition blob_getSignedUrl (path : string) : M string :=
  external (BlobGetSignedUrl path) (ret (signedUrl path)).

(** ** POST /api/upload *)

(** The body of the [for] loop for [files[i]] and [fileNames[i]]. *)
Definition upload_one (file : UploadedFile) (fileName : string)
    (fileURLs : list string) : M (list string) :=
  let path := "files/" ++ fileName in
  let* _ := blob_save path (buffer file) (mimetype file) in
  let* fileURL := blob_getSignedUrl path in
  let fileURLs := (fileURLs ++ [fileURL])%list in
  let* w := get_world in
  let* _ := collection_add (mkFileRecord fileName (clock w) fileURL) in
  ret fileURLs.

(** The loop over the indices below [files.length].  The handler enters it
    only with as many names as files. *)
Fixpoint upload_each (files : list UploadedFile) (fileNames : list string)
    (fileURLs : list string) : M (list string) :=
  match files, fileNames with
  | file :: files', fileName :: fileNames' =>
      let* fileURLs := upload_one file fileName fileURLs in
      upload_each files' fileNames' fileURLs
  | _, _ => ret fileURLs
  end.

(** The handler from its guard on.  [files] is [req.files], [None] when
    multer left it undefined; [fileNames] is what
    [JSON.parse(req.body.fileNames)] returned, an array of strings or [None]
    for [null].  The parse itself, which the source runs before the guard
    and before its [try], is in [upload_request] below. *)
Definition upload (files : option (list UploadedFile))
    (fileNames : option (list string)) : Handler :=
  match files, fileNames with
  | Some files, Some fileNames =>
      if negb (length files =? length fileNames)%nat then
        ret (mkResponse 400 (Message "Missing required fields or mismatch in file count"))
      else
        try_catch
          (let* fileURLs := upload_each files fileNames [] in
           ret (mkResponse 200 (Uploaded "Files uploaded successfully" fileURLs)))
          (fun error =>
             let* _ := console_error "Error uploading files:" in
             ret (mkResponse 500 (Message "Failed to upload files")))
  | _, _ =>
      ret (mkResponse 400 (Message "Missing required fields or mismatch in file count"))
  end.

(** ** GET /api/files *)

(** Every document of the collection is a [FileRecord], so the conversion
    of [uploadDate] does not throw. *)
Definition list_files : Handler :=
  try_catch
    (let* docs := files_get in
     let files := map (fun doc : string * FileRecord =>
                         let data := doc.2 in
                         mkFileEntry doc.1 (fileName data)
                                     (toLocaleString (uploadDate data)) (fileURL data))
                      docs in
     ret (mkResponse 200 (FileList files)))
    (fun error =>
       let* _ := console_error "Error fetching files:" in
       ret (mkResponse 500 (Message "Failed to fetch files"))).

(** ** DELETE /api/files/:id *)

Definition delete_file (fileId : string) : Handler :=
  try_catch
    (let* fileData := doc_get fileId in
     match fileData with
     | None => ret (mkResponse 404 (Message "File not found"))
     | Some fileData =>
         let* _ := blob_delete ("files/" ++ fileName fileData) in
         let* _ := doc_delete fileId in
         ret (mkResponse 200 (Message "File deleted successfully"))
     end)
    (fun error =>
       let* _ := console_error "Error deleting file:" in
       ret (mkResponse 500 (Message "Failed to delete file"))).

(** ** GET /api/statistics *)

(** One turn of the [for] loop over the listing, with its own [try].
    A metadata call that resolves always resolves to an object, so the test
    [metadata && metadata.size] is the test of [metadata.size]. *)
Definition add_size (file : string) (totalUsedBytes : number) : M number :=
  try_catch
    (let* metadata := blob_getMetadata file in
     match md_size metadata with
     | Some sz =>
         if non_empty sz then ret (num_add totalUsedBytes (parseInt sz))
         else
           let* _ := console_warn ("No size metadata for file: " ++ file) in
           ret totalUsedBytes
     | None =>
         let* _ := console_warn ("No size metadata for file: " ++ file) in
         ret totalUsedBytes
     end)
    (fun error =>
       let* _ := console_error ("Error retrieving metadata for file " ++ file ++ ":") in
       ret totalUsedBytes).

Fixpoint scan_sizes (files : list string) (totalUsedBytes : number) : M number :=
  match files with
  | [] => ret totalUsedBytes
  | file :: rest =>
      let* totalUsedBytes := add_size file totalUsedBytes in
      scan_sizes rest totalUsedBytes
  end.

Definition statistics : Handler :=
  try_catch
    (let* totalDownloads := downloads_get in
     let* files := bucket_getFiles in
     let* totalUsedBytes :=
       if (0 <? length files)%nat then scan_sizes files (Num 0)
       else
         let* _ := console_warn "No files found in storage." in
         ret (Num 0) in
     let totalUsedGB :=
       toFixed (num_div totalUsedBytes (Num (inject_Z (1024 * 1024 * 1024)))) 2 in
     let totalFiles := length files in
     ret (mkResponse 200 (StatisticsBody (mkStatistics totalDownloads totalUsedGB totalFiles))))
    (fun error =>
       let* _ := console_error "Error fetching statistics:" in
       ret (mkResponse 500 (ErrorBody "Failed to fetch statistics"))).

(** ** GET /api/file-formats *)

(** [mimeTypeMapping[contentType] || contentType.split("/")[1]]. *)
Definition classify (contentType : string) : js_value :=
  let mapped := property mimeTypeMapping contentType in
  if truthy mapped then mapped else element (split_on "/" contentType) 1.

Fixpoint count_formats (files : list string) (formats : list (js_value * nat))
    : M (list (js_value * nat)) :=
  match files with
  | [] => ret formats
  | file :: rest =>
      let* metadata := blob_getMetadata file in
      match md_contentType metadata with
      | Some contentType =>
          if non_empty contentType then
            let format := classify contentType in
            count_formats rest
              (map_set formats format (default 0 (map_get formats format) + 1))
          else count_formats rest formats
      | None => count_formats rest formats
      end
  end.

Definition file_formats : Handler :=
  try_catch
    (let* files := bucket_getFiles in
     let* formats := count_formats files [] in
     ret (mkResponse 200 (Formats formats)))
    (fun error =>
       let* _ := console_error "Error fetching file formats:" in
       ret (mkResponse 500 (ErrorBody "Failed to fetch file formats"))).

End Gateway.

(** ** The request of POST /api/upload

    [const fileNames = JSON.parse(req.body.fileNames)] is the second line
    of the handler: it runs before the guard and outside the [try], so what
    it throws is caught by nothing in the handler and no response is sent
    from there. *)



Section UploadRequest.

Variable signedUrl : string → string.

(** [JSON.parse] on the text of a field: [None] when it throws,
    [Some None] for [null], [Some (Some names)] for an array of strings.
    Texts that parse to a value of another shape are outside this model,
    as they are outside [upload]. *)
Variable parse_text : string → option (option (list string)).



End UploadRequest.

(** ** Reference values for the statements *)

(** The object [save] leaves at a path. *)
Definition blob_of (file : UploadedFile) : BlobObject :=
  mkBlobObject (buffer file) (Some (mimetype file))
               (Some (pretty (length (buffer file)))).

(** The number of further [DELETE /api/files/:id] requests for one id. *)
Fixpoint delete_repeatedly (n : nat) (fileId : string) (w : World) : World :=
  match n with
  | O => w
  | S n' => delete_repeatedly n' fileId (delete_file fileId w).2
  end.

(** The calls a request has added to the trace. *)
Definition new_calls (w w' : World) : list (Call * bool) :=
  drop (length (trace w)) (trace w').

Section UploadReference.

Variable signedUrl : string → string.

(** The record [add] receives for a declared name at time [now]. *)
Definition record_of (now : Z) (name : string) : FileRecord :=
  mkFileRecord name now (signedUrl ("files/" ++ name)).

(** The three calls of one turn of the upload loop, in order. *)
Definition pair_calls (now : Z) (pair : UploadedFile * string) : list Call :=
  let path := "files/" ++ pair.2 in
  [ BlobSave path (buffer pair.1) (mimetype pair.1);
    BlobGetSignedUrl path;
    CollectionAdd (record_of now pair.2) ].

(** The trace of a turn in which every call went through. *)
Definition committed_calls (now : Z) (pair : UploadedFile * string) : list (Call * bool) :=
  zip (pair_calls now pair) [true; true; true].

(** The trace of a turn whose call number [j] (from 0) rejected. *)
Definition failing_calls (now : Z) (j : nat) (pair : UploadedFile * string)
    : list (Call * bool) :=
  zip (pair_calls now pair) (replicate j true ++ [false]).

(** The bucket after the blobs of [pairs] were written, in order. *)
Definition write_blobs (pairs : list (UploadedFile * string))
    (b : gmap string BlobObject) : gmap string BlobObject :=
  foldl (fun b pair => <["files/" ++ pair.2 := blob_of pair.1]> b) b pairs.

End UploadReference.

(** [coll'] is [coll] with the records [recs] appended: each under an
    identifier of its own that [coll] did not have. *)
Definition appended (recs : list FileRecord)
    (coll coll' : gmap string FileRecord) : Prop :=
  ∃ ids : list string,
    length ids = length recs ∧
    NoDup ids ∧
    (∀ id, id ∈ ids → coll !! id = None) ∧
    coll' = list_to_map (zip ids recs) ∪ coll.

Definition is_blob_save (entry : Call * bool) : bool :=
  match entry with
  | (BlobSave _ _ _, true) => true
  | _ => false
  end.

(** The number of blob writes that went through in a trace. *)
Definition blob_writes (calls : list (Call * bool)) : nat :=
  length (List.filter is_blob_save calls).



(** The size the statistics scan reads for an object: none when the
    metadata call rejects ([fault]), when the object is not there, or when
    its metadata has no size or an empty one. *)
Definition readable_size (b : gmap string BlobObject) (fault : bool)
    (file : string) : option string :=
  if fault then None
  else match b !! file with
       | Some obj =>
           match size_field obj with
           | Some sz => if non_empty sz then Some sz else None
           | None => None
           end
       | None => None
       end.

(** The sizes read for a listing, one metadata call after the other. *)
Fixpoint readable_sizes (b : gmap string BlobObject) (fs : list bool)
    (files : list string) : list (option string) :=
  match files with
  | [] => []
  | file :: rest => readable_size b (next_fault fs) file :: readable_sizes b (tail fs) rest
  end.

(** The total of the sizes read, from [total] on. *)
Definition accumulated (total : number) (sizes : list (option string)) : number :=
  foldl (fun total sz => num_add total (parseInt sz)) total (omap id sizes).

(** [1024 * 1024 * 1024] *)
Definition GiB : Z := 1024 * 1024 * 1024.

(** The sum of a list of byte counts. *)
Definition sum_bytes (bytes : list Z) : Z := foldr Z.add 0%Z bytes.

(** A size string the storage service reports: it reads as the byte count
    [z]. *)
Definition reads_as (sz : string) (z : Z) : Prop :=
  parseInt sz = Num (inject_Z z) ∧ (0 ≤ z)%Z.

(** The substring after the first [/] of a string, when it has one. *)
Fixpoint after_separator (s : string) : option string :=
  match s with
  | EmptyString => None
  | String c s' => if Ascii.eqb c "/" then Some s' else after_separator s'
  end.

(** The part of a string before its first [/], all of it when it has none. *)
Fixpoint first_segment (s : string) : string :=
  match s with
  | EmptyString => EmptyString
  | String c s' => if Ascii.eqb c "/" then EmptyString else String c (first_segment s')
  end.

(** The outcome of a delete request in each of its cases. *)
Inductive delete_outcome (fileId : string) (w : World) : Response → World → Prop :=
| delete_lookup_failed w' :
    fault_due w = true →
    bucket w' = bucket w → files_coll w' = files_coll w →
    new_calls w w' = [(DocGet fileId, false)] →
    delete_outcome fileId w (mkResponse 500 (Message "Failed to delete file")) w'
| delete_no_record w' :
    fault_due w = false → files_coll w !! fileId = None →
    bucket w' = bucket w → files_coll w' = files_coll w →
    new_calls w w' = [(DocGet fileId, true)] →
    delete_outcome fileId w (mkResponse 404 (Message "File not found")) w'
| delete_blob_failed record w' :
    files_coll w !! fileId = Some record →
    bucket w' = bucket w → files_coll w' = files_coll w →
    new_calls w w' = [(DocGet fileId, true); (BlobDelete ("files/" ++ fileName record), false)] →
    delete_outcome fileId w (mkResponse 500 (Message "Failed to delete file")) w'
| delete_record_failed record w' :
    files_coll w !! fileId = Some record →
    is_Some (bucket w !! ("files/" ++ fileName record)) →
    bucket w' = delete ("files/" ++ fileName record) (bucket w) →
    files_coll w' = files_coll w →
    new_calls w w' = [(DocGet fileId, true); (BlobDelete ("files/" ++ fileName record), true);
                      (DocDelete fileId, false)] →
    delete_outcome fileId w (mkResponse 500 (Message "Failed to delete file")) w'
| delete_done record w' :
    files_coll w !! fileId = Some record →
    is_Some (bucket w !! ("files/" ++ fileName record)) →
    bucket w' = delete ("files/" ++ fileName record) (bucket w) →
    files_coll w' = delete fileId (files_coll w) →
    new_calls w w' = [(DocGet fileId, true); (BlobDelete ("files/" ++ fileName record), true);
                      (DocDelete fileId, true)] →
    delete_outcome fileId w (mkResponse 200 (Message "File deleted successfully")) w'.

(** ** Worlds and requests used as examples *)

Definition example_signedUrl (path : string) : string :=
  "https://storage.test/" ++ path ++ "?sig".

Definition example_toLocaleString (t : Z) : string := pretty t.

Definition empty_world : World := mkWorld ∅ ∅ ∅ 0 [] [] [].

Definition report : UploadedFile := mkUploadedFile [Byte.x25; Byte.x50] "application/pdf".
Definition notes : UploadedFile := mkUploadedFile [Byte.x68; Byte.x69; Byte.x0a] "text/plain".
Definition photo : UploadedFile := mkUploadedFile [Byte.xff; Byte.xd8] "image/jpeg".

(** One record and its blob. *)
Definition one_file_world : World :=
  mkWorld {[ "files/a.txt" := blob_of notes ]}
          {[ "id1" := mkFileRecord "a.txt" 7 "https://storage.test/files/a.txt?sig" ]}
          ∅ 0 [] [] [].

(** A record whose blob is gone. *)
Definition dangling_world : World :=
  mkWorld ∅
          {[ "id1" := mkFileRecord "a.txt" 7 "https://storage.test/files/a.txt?sig" ]}
          ∅ 0 [] [] [].

(** Three objects, one of them without a size, and more records than
    objects. *)
Definition stats_world : World :=
  mkWorld {[ "files/a.bin" := mkBlobObject [] (Some "application/octet-stream") (Some "1610612736");
             "files/b.pdf" := mkBlobObject [] (Some "application/pdf") (Some "5368710");
             "files/c" := mkBlobObject [] None None ]}
          {[ "id1" := mkFileRecord "a.bin" 1 "u1"; "id2" := mkFileRecord "b.pdf" 2 "u2";
             "id3" := mkFileRecord "c" 3 "u3"; "id4" := mkFileRecord "gone" 4 "u4" ]}
          {[ "d1"; "d2"; "d3"; "d4"; "d5" ]}
          0 [] [] [].

Definition example_mapping : gmap string string :=
  {[ "application/pdf" := "PDF"; "image/jpeg" := "JPEG" ]}.

(** ** Reference values for the further properties *)

(** The calls that remove something. *)
Definition is_deletion (c : Call) : bool :=
  match c with
  | BlobDelete _ | DocDelete _ => true
  | _ => false
  end.

(** The blob the last of [pairs] with the path [path] writes, if one of
    them has that path. *)
Fixpoint last_write (pairs : list (UploadedFile * string)) (path : string)
    : option BlobObject :=
  match pairs with
  | [] => None
  | p :: rest =>
      match last_write rest path with
      | Some obj => Some obj
      | None =>
          if decide ("files/" ++ p.2 = path) then Some (blob_of p.1) else None
      end
  end.

(** No fault is due in the next [n] calls. *)
Definition fault_free (n : nat) (fs : list bool) : Prop :=
  Forall (eq false) (take n fs).

Section ListReference.

Variable toLocaleString : Z → string.

(** The entry [GET /api/files] makes of a document. *)
Definition entry_of (doc : string * FileRecord) : FileEntry :=
  mkFileEntry doc.1 (fileName doc.2) (toLocaleString (uploadDate doc.2)) (fileURL doc.2).

End ListReference.

Section FormatsReference.

Variable mimeTypeMapping : gmap string string.

(** The format the formats request counts an object under: none when the
    object has no content type or an empty one. *)
Definition format_of (obj : BlobObject) : option js_value :=
  match contentType obj with
  | Some ct => if non_empty ct then Some (classify mimeTypeMapping ct) else None
  | None => None
  end.

End FormatsReference.

(** [formats.set(format, (formats.get(format) || 0) + 1)] *)
Definition count_one (formats : list (js_value * nat)) (format : js_value)
    : list (js_value * nat) :=
  map_set formats format (default 0 (map_get formats format) + 1).


(** Every object carries the size [save] records: the length of its
    payload in decimal digits. *)
Definition sizes_as_saved (b : gmap string BlobObject) : Prop :=
  ∀ path obj, b !! path = Some obj →
              size_field obj = Some (pretty (length (content obj))).


(** ** The CORS policy *)

Definition allowedOrigins : list string :=
  [ "http://localhost:5173";
    "https://filepanel.vercel.app";
    "https://server.anasib.tech";
    "https://www.anasib.tech";
    "https://anasib.tech";
    "https://www.server.anasib.tech" ].

(** The [origin] function of [corsOptions].  [None] is a request without
    an origin; [true] is [callback(null, true)] and [false] is
    [callback(new Error("Not allowed by CORS"))]. *)
Definition cors_origin (origin : option string) : bool :=
  match origin with
  | None => true
  | Some o => negb (non_empty o) || bool_decide (o ∈ allowedOrigins)
  end.

(** ** Downloads and sign-in

    The download and the authentication handler call what the handlers
    above do not: an existence test of a blob, a [fetch] over the network
    and a query of the [users] collection.  A [Site] puts these next to the
    [World]; its trace takes the calls of the world in as they are made.
    What [fetch] resolves to is the network's affair: [network] gives the
    reply for each address. *)

(** A document of the [users] collection; a field may be missing. *)
Record UserDoc := mkUserDoc {
  user_username : option string;
  user_password : option string
}.

(** What the download handler reads of the reply [fetch] resolves to. *)
Record FetchResponse := mkFetchResponse {
  fetch_ok : bool;
  fetch_contentType : option string;
  fetch_body : list Byte.byte
}.

Inductive SiteCall :=
| Core (c : Call)
| BlobExists (path : string)
| Fetch (url : string)
| UsersQuery (username : string).

Inductive SiteError :=
| CoreError (e : Error)
| CallFailure (c : SiteCall)
| NotOk
| HeaderRefused (name : string).

(** [users_coll] lists the documents in the order in which a query returns
    them. *)
Record Site := mkSite {
  world : World;
  users_coll : list (string * UserDoc);
  network : string → FetchResponse;
  site_trace : list (SiteCall * bool);
  site_log : list string
}.

Definition set_world (w : World) (s : Site) : Site :=
  mkSite w (users_coll s) (network s) (site_trace s) (site_log s).

Definition record_site_calls (calls : list (SiteCall * bool)) (s : Site) : Site :=
  mkSite (world s) (users_coll s) (network s) (site_trace s ++ calls) (site_log s).

Inductive SiteOutcome (A : Type) :=
| Done (a : A)
| Raised (e : SiteError).
Arguments Done {A} a.
Arguments Raised {A} e.

Definition MS (A : Type) : Type := Site → SiteOutcome A * Site.

Definition site_ret {A} (a : A) : MS A := fun s => (Done a, s).

Definition site_bind {A B} (m : MS A) (k : A → MS B) : MS B := fun s =>
  match m s with
  | (Done a, s') => k a s'
  | (Raised e, s') => (Raised e, s')
  end.

Definition site_raise {A} (e : SiteError) : MS A := fun s => (Raised e, s).

Definition site_try {A} (body : MS A) (handler : SiteError → MS A) : MS A := fun s =>
  match body s with
  | (Done a, s') => (Done a, s')
  | (Raised e, s') => handler e s'
  end.

Declare Scope site_scope.
Delimit Scope site_scope with site.
Notation "'let+' x ':=' m 'in' k" := (site_bind m (fun x => k))
  (at level 10, x name, m at level 100, k at level 200,
   format "'let+'  x  ':='  m  'in' '//' k") : site_scope.
Notation "'let+' '_' ':=' m 'in' k" := (site_bind m (fun _ => k))
  (at level 10, m at level 100, k at level 200,
   format "'let+'  '_'  ':='  m  'in' '//' k") : site_scope.
Open Scope site_scope.

(** A computation of the first handlers, run on the world of the site; the
    calls it makes go to the end of the site's trace. *)
Definition lift {A} (m : M A) : MS A := fun s =>
  let '(o, w') := m (world s) in
  let calls := (fun entry : Call * bool => (Core entry.1, entry.2)) <$> new_calls (world s) w' in
  (match o with
   | Returned a => Done a
   | Thrown e => Raised (CoreError e)
   end,
   record_site_calls calls (set_world w' s)).

Definition console_log (line : string) : MS unit := fun s =>
  (Done tt, mkSite (world s) (users_coll s) (network s) (site_trace s) (site_log s ++ [line])).

Definition went_through {A} (o : SiteOutcome A) : bool :=
  match o with Done _ => true | Raised _ => false end.

(** One call of the site's own, under the fault schedule of the world. *)
Definition site_call {A} (c : SiteCall) (effect : MS A) : MS A := fun s =>
  let s1 := set_world (set_faults (tail (faults (world s))) (world s)) s in
  if fault_due (world s) then (Raised (CallFailure c), record_site_calls [(c, false)] s1)
  else
    let '(o, s') := effect s1 in
    (o, record_site_calls [(c, went_through o)] s').

(** [fileRef.exists()] *)
Definition blob_exists (path : string) : MS bool :=
  site_call (BlobExists path) (fun s =>
    (Done (bool_decide (is_Some (bucket (world s) !! path))), s)).

(** [fetch(url)] *)
Definition fetch (url : string) : MS FetchResponse :=
  site_call (Fetch url) (fun s => (Done (network s url), s)).

(** [db.collection("users").where("username", "==", username).limit(1).get()],
    as the list [snapshot.docs]. *)
Definition users_query (username : string) : MS (list (string * UserDoc)) :=
  site_call (UsersQuery username) (fun s =>
    (Done (take 1 (filter (fun doc => user_username doc.2 = Some username)
                          (users_coll s))), s)).

Inductive SiteResponse :=
| Json (response : Response)
| Attachment (disposition : string) (contentType : option string) (payload : list Byte.byte)
| AuthResult (status : nat) (authenticated : bool) (message : option string).

Definition SiteHandler : Type := Site → SiteOutcome SiteResponse * Site.

Definition dquote : string := String (ascii_of_nat 34) EmptyString.

Section SiteHandlers.

Variable signedUrl : string → string.

(** Whether [res.setHeader(name, value)] takes the value; it throws when it
    does not.  [None] is the [null] that [headers.get] gives for a header
    the reply does not have. *)
Variable headerAccepted : string → option string → bool.

Definition set_header (name : string) (value : option string) : MS unit := fun s =>
  if headerAccepted name value then (Done tt, s) else (Raised (HeaderRefused name), s).

(** ** GET /api/download/:fileName

    The reply is relayed whole: a stream that breaks while it is piped is
    outside this function. *)
Definition download (fileName : string) : SiteHandler :=
  site_try
    (let path := "files/" ++ fileName in
     let+ exists_ := blob_exists path in
     if negb exists_ then
       site_ret (Json (mkResponse 404 (Message "File not found")))
     else
       let+ fileURL := lift (blob_getSignedUrl signedUrl path) in
       let+ response := fetch fileURL in
       if negb (fetch_ok response) then site_raise NotOk
       else
         let disposition := "attachment; filename=" ++ dquote ++ fileName ++ dquote in
         let+ _ := set_header "Content-Disposition" (Some disposition) in
         let+ _ := set_header "Content-Type" (fetch_contentType response) in
         site_ret (Attachment disposition (fetch_contentType response)
                              (fetch_body response)))
    (fun error =>
       let+ _ := lift (console_error "Error downloading file:") in
       site_ret (Json (mkResponse 500 (Message "Failed to download file")))).

(** The answer of a download whose three calls went through, for the reply
    [reply] of the network. *)
Definition relayed (fileName : string) (reply : FetchResponse) : SiteResponse :=
  let disposition := "attachment; filename=" ++ dquote ++ fileName ++ dquote in
  if fetch_ok reply
     && headerAccepted "Content-Disposition" (Some disposition)
     && headerAccepted "Content-Type" (fetch_contentType reply)
  then Attachment disposition (fetch_contentType reply) (fetch_body reply)
  else Json (mkResponse 500 (Message "Failed to download file")).

End SiteHandlers.

(** ** POST /api/authenticate

    [username] and [password] are the two fields of [req.body], taken as
    strings. *)
Definition authenticate (username password : string) : SiteHandler :=
  let+ _ := console_log "Working" in
  site_try
    (let+ docs := users_query username in
     match docs with
     | [] => site_ret (AuthResult 401 false (Some "Invalid username or password"))
     | doc :: _ =>
         if decide (user_password doc.2 = Some password) then
           site_ret (AuthResult 200 true None)
         else
           site_ret (AuthResult 401 false (Some "Invalid username or password"))
     end)
    (fun error =>
       let+ _ := lift (console_error "Error authenticating user:") in
       site_ret (Json (mkResponse 500 (Message "Failed to authenticate user")))).

(** The first document of the [users] collection with a given username. *)
Definition first_user (users : list (string * UserDoc)) (username : string)
    : option UserDoc :=
  snd <$> head (filter (fun doc => user_username doc.2 = Some username) users).

(** The site around a world, with nothing else in it. *)
Definition site_of (w : World) (users : list (string * UserDoc))
    (net : string → FetchResponse) : Site :=
  mkSite w users net [] [].

(** ** More worlds used as examples *)

(** Two records with one name, and the one blob they share. *)
Definition namesake_world : World :=
  mkWorld {[ "files/a.txt" := blob_of notes ]}
          {[ "id1" := mkFileRecord "a.txt" 7 "https://storage.test/files/a.txt?sig";
             "id2" := mkFileRecord "a.txt" 9 "https://storage.test/files/a.txt?sig" ]}
          ∅ 0 [] [] [].

(** A network that answers every address with the same small text. *)
Definition example_network (url : string) : FetchResponse :=
  mkFetchResponse true (Some "text/plain") [Byte.x68; Byte.x69; Byte.x0a].

(** A network that answers nothing. *)
Definition dead_network (url : string) : FetchResponse :=
  mkFetchResponse false None [].

(** Two accounts with the username [ann], and one [bob]. *)
Definition example_users : list (string * UserDoc) :=
  [ ("u1", mkUserDoc (Some "bob") (Some "b0b"));
    ("u2", mkUserDoc (Some "ann") (Some "first"));
    ("u3", mkUserDoc (Some "ann") (Some "second")) ].


(** Header values without a line feed are taken, and an absent one. *)
Definition example_headerAccepted (name : string) (value : option string) : bool :=
  match value with
  | Some v => negb (bool_decide (ascii_of_nat 10 ∈ String.list_ascii_of_string v))
  | None => true
  end.

(** * Properties *)

Section Properties.

Variable signedUrl : string → string.
Variable toLocaleString : Z → string.
Variable mimeTypeMapping : gmap string string.

Ltac run :=
  cbv beta iota zeta delta
    [upload upload_one delete_file list_files statistics file_formats add_size
     try_catch bind ret get_world console_error console_warn
     external fault_due next_fault succeeded
     blob_save blob_getSignedUrl blob_delete bucket_getFiles blob_getMetadata
     collection_add files_get downloads_get doc_get doc_delete
     set_bucket set_files_coll set_faults record_call record_log
     bucket files_coll downloads_coll clock faults trace console
     md_size md_contentType tail fst snd].

Lemma new_calls_app {A} (old new all : list A) :
  all = (old ++ new)%list → drop (length old) all = new.
Proof. intros ->. by rewrite drop_app_length. Qed.

(** ** Upload *)

Local Abbreviation url_of name := (signedUrl ("files/" ++ name)).

(** One turn of the loop that returns has made its three calls, written
    the blob and appended the record, and had no fault scheduled. *)
Lemma upload_one_returns file name urls w urls' w1 :
  upload_one signedUrl file name urls w = (Returned urls', w1) →
  urls' = (urls ++ [url_of name])%list ∧
  bucket w1 = <["files/" ++ name := blob_of file]> (bucket w) ∧
  files_coll w1 =
    <[fresh (dom (files_coll w)) := record_of signedUrl (clock w) name]> (files_coll w) ∧
  downloads_coll w1 = downloads_coll w ∧
  clock w1 = clock w ∧
  faults w1 = drop 3 (faults w) ∧
  trace w1 = (trace w ++ committed_calls signedUrl (clock w) (file, name))%list ∧
  console w1 = console w.
Proof.
  destruct w as [b c d t f tr co]. run.
  destruct f as [|[] [|[] [|[] f]]]; intros H; inversion H; subst; clear H;
    simpl; rewrite <- ?app_assoc; done.
Qed.

(** With no fault due in its three calls, a turn of the loop returns. *)
Lemma upload_one_proceeds file name urls w fs :
  faults w = (false :: false :: false :: fs)%list →
  ∃ w1, upload_one signedUrl file name urls w = (Returned (urls ++ [url_of name])%list, w1).
Proof.
  destruct w as [b c d t f tr co]. simpl. intros ->. run. eauto.
Qed.

(** A turn whose call number [j] is the first to reject. *)
Lemma upload_one_throws file name urls w j fs :
  j < 3 →
  faults w = (replicate j false ++ true :: fs)%list →
  ∃ e w1,
    upload_one signedUrl file name urls w = (Thrown e, w1) ∧
    bucket w1 = (if decide (j = 0) then bucket w
                 else <["files/" ++ name := blob_of file]> (bucket w)) ∧
    files_coll w1 = files_coll w ∧
    downloads_coll w1 = downloads_coll w ∧
    clock w1 = clock w ∧
    trace w1 = (trace w ++ failing_calls signedUrl (clock w) j (file, name))%list ∧
    console w1 = console w.
Proof.
  destruct w as [b c d t f tr co]. simpl. intros Hj ->.
  destruct j as [|[|[|j]]]; [| | |lia]; run; simpl;
    eexists _, _; (split; [reflexivity|]); simpl; rewrite <- ?app_assoc; done.
Qed.

Lemma appended_nil (coll : gmap string FileRecord) : appended [] coll coll.
Proof.
  exists []. repeat split; [constructor|intros id Hid; by apply elem_of_nil in Hid|].
  simpl. by rewrite (left_id_L ∅ (∪)).
Qed.

Lemma appended_cons r recs (coll coll' : gmap string FileRecord) :
  appended recs (<[fresh (dom coll) := r]> coll) coll' →
  appended (r :: recs) coll coll'.
Proof.
  intros (ids & Hlen & Hnd & Hnew & ->).
  set (id0 := fresh (dom coll)) in *.
  assert (Hid0 : coll !! id0 = None) by (apply not_elem_of_dom, is_fresh).
  assert (Hnotin : id0 ∉ ids).
  { intros Hin. specialize (Hnew _ Hin). by rewrite lookup_insert_eq in Hnew. }
  exists (id0 :: ids). repeat split.
  - simpl. by rewrite Hlen.
  - by constructor.
  - intros id Hid. apply elem_of_cons in Hid as [->|Hid]; [done|].
    specialize (Hnew _ Hid). rewrite lookup_insert_ne in Hnew; [done|].
    intros <-. by apply Hnotin.
  - simpl. rewrite <- insert_union_l. rewrite <- insert_union_r; [done|].
    apply not_elem_of_list_to_map. rewrite fst_zip; [done|lia].
Qed.

Lemma appended_size recs (coll coll' : gmap string FileRecord) :
  appended recs coll coll' → size coll' = size coll + length recs.
Proof.
  intros (ids & Hlen & Hnd & Hnew & ->).
  rewrite map_size_disj_union.
  - rewrite map_size_list_to_map; [|rewrite fst_zip; [done|lia]].
    rewrite length_zip_with. lia.
  - apply map_disjoint_list_to_map_zip_l; [done|].
    apply Forall_forall. intros id Hid. by apply Hnew.
Qed.

Lemma appended_lookup recs (coll coll' : gmap string FileRecord) i r :
  appended recs coll coll' → recs !! i = Some r →
  ∃ id, coll !! id = None ∧ coll' !! id = Some r.
Proof.
  intros (ids & Hlen & Hnd & Hnew & ->) Hr.
  destruct (lookup_lt_is_Some_2 ids i) as [id Hid].
  { rewrite Hlen. by eapply lookup_lt_Some. }
  exists id. split; [apply Hnew; by eapply list_elem_of_lookup_2|].
  apply lookup_union_Some_l. apply elem_of_list_to_map.
  - rewrite fst_zip; [done|lia].
  - apply list_elem_of_lookup. exists i. apply lookup_zip_with_Some. eauto.
Qed.

(** The loop, when it returns. *)
Lemma upload_each_returns files : ∀ names urls w urls' w',
  length files = length names →
  upload_each signedUrl files names urls w = (Returned urls', w') →
  urls' = (urls ++ map (fun name => url_of name) names)%list ∧
  appended (map (record_of signedUrl (clock w)) names) (files_coll w) (files_coll w') ∧
  bucket w' = write_blobs (zip files names) (bucket w) ∧
  trace w' = (trace w ++ flat_map (committed_calls signedUrl (clock w)) (zip files names))%list ∧
  downloads_coll w' = downloads_coll w ∧
  clock w' = clock w ∧
  console w' = console w ∧
  faults w' = drop (3 * length files) (faults w).
Proof.
  induction files as [|file files IH]; intros [|name names] urls w urls' w' Hlen Hrun;
    try discriminate.
  - inversion Hrun; subst. rewrite !app_nil_r. repeat split; try done.
    apply appended_nil.
  - cbn [upload_each] in Hrun. unfold bind at 1 in Hrun.
    destruct (upload_one signedUrl file name urls w) as [[urls1|e] w1] eqn:Hone;
      [|discriminate].
    apply upload_one_returns in Hone
      as (-> & Hb1 & Hf1 & Hd1 & Hc1 & Hfa1 & Ht1 & Hco1).
    apply IH in Hrun as (-> & Happ & Hb & Ht & Hd & Hc & Hco & Hfa);
      [|simpl in Hlen; lia].
    rewrite Hc1 in *. repeat split.
    + by rewrite <- app_assoc.
    + simpl. apply appended_cons. by rewrite <- Hf1.
    + by rewrite Hb, Hb1.
    + rewrite Ht, Ht1. simpl. by rewrite <- app_assoc.
    + congruence.
    + congruence.
    + congruence.
    + rewrite Hfa, Hfa1, drop_drop. f_equal. simpl. lia.
Qed.

(** The loop, when the first fault is due at call [j] of the turn for the
    pair number [k] (both from 0). *)
Lemma upload_each_throws k : ∀ files names urls w j fs pair,
  length files = length names →
  zip files names !! k = Some pair →
  j < 3 →
  faults w = (replicate (3 * k + j) false ++ true :: fs)%list →
  ∃ e w',
    upload_each signedUrl files names urls w = (Thrown e, w') ∧
    appended (map (record_of signedUrl (clock w)) (take k names))
             (files_coll w) (files_coll w') ∧
    bucket w' = write_blobs (take (if decide (j = 0) then k else S k) (zip files names))
                            (bucket w) ∧
    trace w' = (trace w
                ++ flat_map (committed_calls signedUrl (clock w)) (take k (zip files names))
                ++ failing_calls signedUrl (clock w) j pair)%list ∧
    downloads_coll w' = downloads_coll w ∧
    clock w' = clock w ∧
    console w' = console w.
Proof.
  induction k as [|k IH]; intros [|file files] [|name names] urls w j fs pair Hlen Hk Hj Hfaults;
    try discriminate.
  - simpl in Hk. inversion Hk; subst pair. simpl in Hfaults.
    destruct (upload_one_throws file name urls w j fs Hj Hfaults)
      as (e & w1 & Hone & Hb1 & Hf1 & Hd1 & Hc1 & Ht1 & Hco1).
    exists e, w1. cbn [upload_each]. unfold bind at 1. rewrite Hone.
    repeat split; try done.
    + rewrite Hf1. apply appended_nil.
    + rewrite Hb1. by destruct (decide (j = 0)).
  - simpl in Hk.
    replace (3 * S k + j) with (S (S (S (3 * k + j)))) in Hfaults by lia.
    simpl in Hfaults.
    destruct (upload_one_proceeds file name urls w _ Hfaults) as [w1 Hone].
    pose proof Hone as Hone'.
    apply upload_one_returns in Hone'
      as (_ & Hb1 & Hf1 & Hd1 & Hc1 & Hfa1 & Ht1 & Hco1).
    rewrite Hfaults in Hfa1. simpl in Hfa1.
    destruct (IH files names (urls ++ [url_of name])%list w1 j fs pair)
      as (e & w' & Hrun & Happ & Hb & Ht & Hd & Hc & Hco); try done.
    { simpl in Hlen. lia. }
    exists e, w'. cbn [upload_each]. unfold bind at 1. rewrite Hone.
    rewrite Hc1 in *. repeat split; try congruence.
    + simpl. apply appended_cons. by rewrite <- Hf1.
    + rewrite Hb, Hb1. by destruct (decide (j = 0)).
    + rewrite Ht, Ht1. simpl. by rewrite <- !app_assoc.
Qed.

Lemma write_blobs_keeps pairs : ∀ (b : gmap string BlobObject) path,
  is_Some (b !! path) → is_Some (write_blobs pairs b !! path).
Proof.
  induction pairs as [|pair pairs IH]; intros b path Hb; [done|].
  simpl. apply IH. destruct (decide ("files/" ++ pair.2 = path)) as [->|Hne].
  - rewrite lookup_insert_eq. eauto.
  - by rewrite lookup_insert_ne.
Qed.

Lemma write_blobs_written pairs : ∀ (b : gmap string BlobObject) pair,
  pair ∈ pairs → is_Some (write_blobs pairs b !! ("files/" ++ pair.2)).
Proof.
  induction pairs as [|p pairs IH]; intros b pair Hin; [by apply elem_of_nil in Hin|].
  simpl. apply elem_of_cons in Hin as [->|Hin]; [|by apply IH].
  apply write_blobs_keeps. rewrite lookup_insert_eq. eauto.
Qed.

Lemma blob_writes_app l1 l2 : blob_writes (l1 ++ l2) = blob_writes l1 + blob_writes l2.
Proof. unfold blob_writes. by rewrite List.filter_app, length_app. Qed.

Lemma blob_writes_committed now pairs :
  blob_writes (flat_map (committed_calls signedUrl now) pairs) = length pairs.
Proof.
  induction pairs as [|pair pairs IH]; [done|].
  cbn [flat_map]. rewrite blob_writes_app, IH. reflexivity.
Qed.

Lemma blob_writes_failing now j pair :
  j < 3 →
  blob_writes (failing_calls signedUrl now j pair) = if decide (j = 0) then 0 else 1.
Proof. intros Hj. destruct j as [|[|[|j]]]; [done|done|done|lia]. Qed.

(** Past the guard, the handler is the loop inside its [try]. *)
Lemma upload_guard_passed files fileNames w :
  length files = length fileNames →
  upload signedUrl (Some files) (Some fileNames) w =
    match upload_each signedUrl files fileNames [] w with
    | (Returned fileURLs, w') =>
        (Returned (mkResponse 200 (Uploaded "Files uploaded successfully" fileURLs)), w')
    | (Thrown _, w') =>
        (Returned (mkResponse 500 (Message "Failed to upload files")),
         record_log LogError "Error uploading files:" w')
    end.
Proof.
  intros Hlen. unfold upload. rewrite Hlen, Nat.eqb_refl. cbn [negb].
  unfold try_catch, bind at 1.
  by destruct (upload_each signedUrl files fileNames [] w) as [[urls|e] w1].
Qed.

(** C1.  A batch of as many payloads as names, in which the first call to
    reject is call [j] (0 the blob write, 1 the link, 2 the record) of the
    turn for pair number [k] (from 0): the request answers 500 with a
    message and no links; the pairs before [k] are committed, each with a
    record of its own appended and its blob in the bucket; the calls made
    are those of the pairs before [k] and of pair [k] up to the rejected
    one, so nothing is written and no record is appended for a later pair. *)
Theorem upload_partial_failure files fileNames w k j fs pair :
  length files = length fileNames →
  zip files fileNames !! k = Some pair →
  j < 3 →
  faults w = (replicate (3 * k + j) false ++ true :: fs)%list →
  ∃ w',
    upload signedUrl (Some files) (Some fileNames) w =
      (Returned (mkResponse 500 (Message "Failed to upload files")), w') ∧
    appended (map (record_of signedUrl (clock w)) (take k fileNames))
             (files_coll w) (files_coll w') ∧
    size (files_coll w') = size (files_coll w) + k ∧
    (∀ i p, i < k → zip files fileNames !! i = Some p →
            is_Some (bucket w' !! ("files/" ++ p.2))) ∧
    bucket w' = write_blobs (take (if decide (j = 0) then k else S k) (zip files fileNames))
                            (bucket w) ∧
    new_calls w w' =
      (flat_map (committed_calls signedUrl (clock w)) (take k (zip files fileNames))
       ++ failing_calls signedUrl (clock w) j pair)%list ∧
    blob_writes (new_calls w w') = (if decide (j = 0) then k else S k).
Proof.
  intros Hlen Hk Hj Hfaults.
  destruct (upload_each_throws k files fileNames [] w j fs pair Hlen Hk Hj Hfaults)
    as (e & w1 & Hrun & Happ & Hb & Ht & Hd & Hc & Hco).
  assert (Hklt : k < length fileNames).
  { apply lookup_lt_Some in Hk. rewrite length_zip_with in Hk. lia. }
  exists (record_log LogError "Error uploading files:" w1).
  assert (Hcalls : new_calls w (record_log LogError "Error uploading files:" w1) =
    (flat_map (committed_calls signedUrl (clock w)) (take k (zip files fileNames))
       ++ failing_calls signedUrl (clock w) j pair)%list).
  { unfold new_calls. simpl. by apply new_calls_app. }
  split; [|split; [|split; [|split; [|split; [|split]]]]].
  - rewrite upload_guard_passed by done. by rewrite Hrun.
  - exact Happ.
  - simpl. rewrite (appended_size _ _ _ Happ), length_map, length_take. lia.
  - intros i p Hi Hp. simpl. rewrite Hb. apply write_blobs_written.
    apply list_elem_of_lookup. exists i. rewrite lookup_take_lt; [done|].
    destruct (decide (j = 0)); lia.
  - exact Hb.
  - exact Hcalls.
  - rewrite Hcalls, blob_writes_app, blob_writes_committed, blob_writes_failing by done.
    rewrite length_take, length_zip_with.
    destruct (decide (j = 0)); lia.
Qed.


Section UploadGuard.

Variable parse_text : string → option (option (list string)).


End UploadGuard.

(** C3.  A request answered 200 for [n] payloads had [n] names; it returns
    [n] links, the i-th being the link of the i-th name; it has appended [n]
    records, one for each name, each under a new identifier; and it has made
    exactly the three calls of each pair in input order, [n] blob writes
    among them. *)
Theorem upload_counts files fileNames w body w' :
  upload signedUrl (Some files) (Some fileNames) w = (Returned (mkResponse 200 body), w') →
  let n := length files in
  length fileNames = n ∧
  ∃ fileURLs,
    body = Uploaded "Files uploaded successfully" fileURLs ∧
    length fileURLs = n ∧
    fileURLs = map (fun name => url_of name) fileNames ∧
    appended (map (record_of signedUrl (clock w)) fileNames) (files_coll w) (files_coll w') ∧
    size (files_coll w') = size (files_coll w) + n ∧
    new_calls w w' = flat_map (committed_calls signedUrl (clock w)) (zip files fileNames) ∧
    blob_writes (new_calls w w') = n ∧
    bucket w' = write_blobs (zip files fileNames) (bucket w).
Proof.
  intros Hrun n.
  assert (Hlen : length files = length fileNames).
  { unfold upload in Hrun.
    destruct (Nat.eqb_spec (length files) (length fileNames)); [done|by inversion Hrun]. }
  rewrite upload_guard_passed in Hrun by done.
  destruct (upload_each signedUrl files fileNames [] w) as [[urls|e] w1] eqn:Heach;
    [|by inversion Hrun].
  inversion Hrun; subst body w1; clear Hrun.
  apply upload_each_returns in Heach
    as (-> & Happ & Hb & Ht & Hd & Hc & Hco & Hfa); [|done].
  assert (Hcalls : new_calls w w' =
            flat_map (committed_calls signedUrl (clock w)) (zip files fileNames)).
  { unfold new_calls. by apply new_calls_app. }
  split; [done|]. eexists. split; [reflexivity|].
  simpl. repeat split; try done.
  - rewrite length_map. done.
  - rewrite (appended_size _ _ _ Happ), length_map. unfold n. lia.
  - rewrite Hcalls, blob_writes_committed, length_zip_with. unfold n. lia.
Qed.

(** With no fault due in its [3 * n] calls, an upload of [n] pairs is
    answered 200. *)
Lemma upload_each_completes files : ∀ names urls w fs,
  length files = length names →
  faults w = (replicate (3 * length files) false ++ fs)%list →
  ∃ urls' w', upload_each signedUrl files names urls w = (Returned urls', w').
Proof.
  induction files as [|file files IH]; intros [|name names] urls w fs Hlen Hfaults;
    try discriminate.
  - simpl. unfold ret. eauto.
  - replace (3 * length (file :: files)) with (S (S (S (3 * length files))))
      in Hfaults by (simpl; lia).
    simpl in Hfaults.
    destruct (upload_one_proceeds file name urls w _ Hfaults) as [w1 Hone].
    pose proof Hone as Hone'.
    apply upload_one_returns in Hone' as (_ & _ & _ & _ & _ & Hfa1 & _).
    rewrite Hfaults in Hfa1. simpl in Hfa1.
    destruct (IH names (urls ++ [url_of name])%list w1 fs) as (urls' & w' & Hrun);
      [simpl in Hlen; lia|done|].
    exists urls', w'. cbn [upload_each]. unfold bind at 1. by rewrite Hone.
Qed.

Lemma upload_succeeds files fileNames w fs :
  length files = length fileNames →
  faults w = (replicate (3 * length files) false ++ fs)%list →
  ∃ fileURLs w',
    upload signedUrl (Some files) (Some fileNames) w =
      (Returned (mkResponse 200 (Uploaded "Files uploaded successfully" fileURLs)), w').
Proof.
  intros Hlen Hfaults.
  destruct (upload_each_completes files fileNames [] w fs Hlen Hfaults)
    as (urls & w' & Hrun).
  exists urls, w'. rewrite upload_guard_passed by done. by rewrite Hrun.
Qed.

(** ** Statistics *)

Lemma new_calls_fst w w' (calls : list Call) :
  (trace w').*1 = ((trace w).*1 ++ calls)%list → (new_calls w w').*1 = calls.
Proof.
  intros H. unfold new_calls. rewrite fmap_drop, H.
  rewrite <- (length_fmap fst (trace w)). by rewrite drop_app_length.
Qed.

Lemma fault_due_next w : fault_due w = next_fault (faults w).
Proof. reflexivity. Qed.

(** One turn of the scan never throws: it adds the size it reads, if any,
    and leaves the stores alone. *)
Lemma add_size_returns file total w :
  ∃ ok w',
    add_size file total w =
      (Returned (match readable_size (bucket w) (fault_due w) file with
                 | Some sz => num_add total (parseInt sz)
                 | None => total
                 end), w') ∧
    bucket w' = bucket w ∧ files_coll w' = files_coll w ∧
    downloads_coll w' = downloads_coll w ∧
    faults w' = tail (faults w) ∧
    trace w' = (trace w ++ [(BlobGetMetadata file, ok)])%list.
Proof.
  destruct w as [b c d t f tr co]. unfold readable_size. run.
  destruct f as [|[] f];
    try destruct (b !! file) as [obj|];
    try destruct (size_field obj) as [sz|];
    try destruct (non_empty sz);
    run; eexists _, _; (split; [reflexivity|]); repeat split; reflexivity.
Qed.

Lemma scan_sizes_returns files : ∀ total w,
  ∃ w',
    scan_sizes files total w =
      (Returned (accumulated total (readable_sizes (bucket w) (faults w) files)), w') ∧
    bucket w' = bucket w ∧ files_coll w' = files_coll w ∧
    downloads_coll w' = downloads_coll w ∧
    (trace w').*1 = ((trace w).*1 ++ map BlobGetMetadata files)%list.
Proof.
  induction files as [|file files IH]; intros total w.
  - exists w. simpl. by rewrite app_nil_r.
  - destruct (add_size_returns file total w)
      as (ok & w1 & Hone & Hb1 & Hf1 & Hd1 & Hfa1 & Ht1).
    destruct (IH (match readable_size (bucket w) (fault_due w) file with
                  | Some sz => num_add total (parseInt sz)
                  | None => total
                  end) w1) as (w' & Hrun & Hb & Hf & Hd & Ht).
    exists w'. cbn [scan_sizes]. unfold bind at 1. rewrite Hone, Hrun.
    rewrite Hb1, Hfa1. repeat split; try congruence.
    + unfold accumulated. cbn [readable_sizes omap]. rewrite fault_due_next.
      by destruct (readable_size (bucket w) (next_fault (faults w)) file).
    + rewrite Ht, Ht1, fmap_app. simpl. by rewrite <- app_assoc.
Qed.

(** The statistics request, once the two calls before the scan have gone
    through. *)
Lemma statistics_answers w :
  next_fault (faults w) = false →
  next_fault (tail (faults w)) = false →
  let listing := (map_to_list (bucket w)).*1 in
  let sizes := readable_sizes (bucket w) (tail (tail (faults w))) listing in
  ∃ w',
    statistics w =
      (Returned (mkResponse 200 (StatisticsBody
         (mkStatistics (size (downloads_coll w))
                       (toFixed (num_div (accumulated (Num 0) sizes) (Num (inject_Z GiB))) 2)
                       (length listing)))), w') ∧
    bucket w' = bucket w ∧ files_coll w' = files_coll w ∧
    downloads_coll w' = downloads_coll w ∧
    (new_calls w w').*1 =
      CollectionGet "downloads" :: BucketGetFiles :: map BlobGetMetadata listing.
Proof.
  intros H0 H1 listing sizes.
  set (w2 := record_call BucketGetFiles true
               (set_faults (tail (tail (faults w)))
                  (record_call (CollectionGet "downloads") true w))).
  destruct (scan_sizes_returns listing (Num 0) w2) as (w' & Hscan & Hb & Hf & Hd & Ht).
  assert (Hpre : ∀ (k : nat → list string → M Response) h,
            try_catch (let* totalDownloads := downloads_get in
                       let* files := bucket_getFiles in k totalDownloads files) h w
            = try_catch (k (size (downloads_coll w)) listing) h w2).
  { intros k h. destruct w as [b c d t f tr co]. simpl in H0, H1.
    unfold try_catch, bind, downloads_get, bucket_getFiles, external, fault_due.
    simpl. destruct f as [|[] [|[] f]]; try discriminate; reflexivity. }
  destruct (decide (listing = [])) as [Hnil|Hne].
  - exists (record_log LogWarn "No files found in storage." w2).
    unfold statistics. rewrite Hpre. subst sizes. rewrite Hnil. simpl.
    repeat split; try done.
    apply new_calls_fst. simpl. by rewrite !fmap_app, <- app_assoc.
  - exists w'. unfold statistics. rewrite Hpre.
    assert (Hpos : (0 <? length listing)%nat = true).
    { destruct listing; [done|reflexivity]. }
    rewrite Hpos. unfold try_catch, bind at 1. rewrite Hscan.
    repeat split; try done.
    apply new_calls_fst. rewrite Ht. simpl. rewrite !fmap_app, <- !app_assoc. done.
Qed.

Lemma statistics_rejected w :
  next_fault (faults w) = true ∨ next_fault (tail (faults w)) = true →
  ∃ w', statistics w =
          (Returned (mkResponse 500 (ErrorBody "Failed to fetch statistics")), w').
Proof.
  destruct w as [b c d t f tr co]. simpl. run.
  destruct f as [|[] [|[] f]]; simpl; intros [?|?]; try discriminate;
    eexists; reflexivity.
Qed.

Lemma readable_sizes_lookup b files : ∀ fs i file,
  files !! i = Some file →
  readable_sizes b fs files !! i = Some (readable_size b (next_fault (drop i fs)) file).
Proof.
  induction files as [|f files IH]; intros fs i file Hi; [done|].
  destruct i as [|i]; simpl in *.
  - by inversion Hi; subst.
  - rewrite (IH _ _ _ Hi). destruct fs; simpl; [by rewrite drop_nil|done].
Qed.

Lemma accumulated_skips total pre post :
  accumulated total (pre ++ None :: post) = accumulated total (pre ++ post).
Proof. unfold accumulated. by rewrite !omap_app. Qed.

(** C7.  Once the download count and the listing are in, the statistics
    request answers 200 whatever happens to the metadata calls.  Every
    listed object gets its metadata call, the ones after a bad object too.
    An object whose call rejects, or whose metadata has no size or an empty
    one, is read as no size, and an object read as no size adds nothing to
    the total: the total is the one of the listing without it. *)
Theorem statistics_skips_bad_objects w :
  next_fault (faults w) = false →
  next_fault (tail (faults w)) = false →
  let listing := (map_to_list (bucket w)).*1 in
  let sizes := readable_sizes (bucket w) (drop 2 (faults w)) listing in
  ∃ stats w',
    statistics w = (Returned (mkResponse 200 (StatisticsBody stats)), w') ∧
    (new_calls w w').*1 =
      CollectionGet "downloads" :: BucketGetFiles :: map BlobGetMetadata listing ∧
    totalFiles stats = length listing ∧
    storageUsed stats =
      toFixed (num_div (accumulated (Num 0) sizes) (Num (inject_Z GiB))) 2 ∧
    (∀ i file,
       listing !! i = Some file →
       next_fault (drop (2 + i) (faults w)) = true ∨
       (∃ obj, bucket w !! file = Some obj ∧
               (size_field obj = None ∨ size_field obj = Some EmptyString)) →
       sizes !! i = Some None) ∧
    (∀ pre post,
       sizes = (pre ++ None :: post)%list →
       storageUsed stats =
         toFixed (num_div (accumulated (Num 0) (pre ++ post)) (Num (inject_Z GiB))) 2).
Proof.
  intros H0 H1 listing sizes.
  destruct (statistics_answers w H0 H1) as (w' & Hrun & Hb & Hf & Hd & Ht).
  assert (Hdrop : drop 2 (faults w) = tail (tail (faults w))).
  { by destruct (faults w) as [|? [|? ?]]. }
  eexists _, w'. split; [exact Hrun|]. simpl.
  split; [exact Ht|]. split; [done|]. split; [by subst sizes; rewrite Hdrop|].
  split.
  - intros i file Hi Hbad. subst sizes.
    rewrite (readable_sizes_lookup _ _ _ _ _ Hi), drop_drop. f_equal.
    unfold readable_size. change (2 + i) with (S (S i)) in *.
    destruct Hbad as [Hflt|(obj & -> & [->| ->])];
      [by rewrite Hflt| |]; by destruct (next_fault (drop (S (S i)) (faults w))).
  - intros pre post Hsizes. rewrite <- Hdrop. fold listing. fold sizes.
    by rewrite Hsizes, accumulated_skips.
Qed.

(** *** Decimal digits *)

Lemma string_app_cons x (a b : string) : String x a ++ b = String x (a ++ b).
Proof. reflexivity. Qed.

Lemma string_app_assoc (a b c : string) : (a ++ b) ++ c = a ++ (b ++ c).
Proof. induction a as [|x a IH]; [done|]. by rewrite !string_app_cons, IH. Qed.

Lemma string_length_app (a b : string) :
  String.length (a ++ b) = String.length a + String.length b.
Proof.
  induction a as [|x a IH]; [done|].
  rewrite string_app_cons. cbn [String.length]. by rewrite IH.
Qed.

Lemma substring_prefix (a b : string) :
  String.substring 0 (String.length a) (a ++ b) = a.
Proof.
  induction a as [|x a IH]; [by destruct b|].
  rewrite string_app_cons. cbn [String.length String.substring]. by rewrite IH.
Qed.

Lemma substring_whole (b : string) : String.substring 0 (String.length b) b = b.
Proof. induction b as [|x b IH]; [done|]. cbn [String.length String.substring]. by rewrite IH. Qed.

Lemma substring_suffix (a b : string) :
  String.substring (String.length a) (String.length b) (a ++ b) = b.
Proof.
  induction a as [|x a IH]; [apply substring_whole|].
  rewrite string_app_cons. cbn [String.length String.substring]. apply IH.
Qed.

Lemma pretty_N_go_app x : ∀ s, pretty_N_go x s = pretty_N_go x EmptyString ++ s.
Proof.
  induction (N.lt_wf_0 x) as [x _ IH]; intros s.
  destruct (decide (x = 0)%N) as [->|Hx]; [done|].
  rewrite !(pretty_N_go_step x) by lia.
  rewrite (IH (x `div` 10)%N) by (apply N.div_lt; lia).
  rewrite (IH (x `div` 10)%N ltac:(apply N.div_lt; lia) (String _ EmptyString)).
  by rewrite string_app_assoc.
Qed.

Lemma pretty_N_digit (x : N) : (x < 10)%N → pretty x = String (pretty_N_char x) EmptyString.
Proof.
  intros Hx. unfold pretty, pretty_N. case_decide as H0; [by subst|].
  rewrite pretty_N_go_step by lia.
  rewrite N.div_small, N.mod_small by done. done.
Qed.

Lemma pretty_N_last (x : N) :
  (10 ≤ x)%N → pretty x = pretty (x `div` 10)%N ++ String (pretty_N_char (x `mod` 10)) EmptyString.
Proof.
  intros Hx. unfold pretty, pretty_N.
  assert (x `div` 10 ≠ 0)%N by (intros H0; apply N.div_small_iff in H0; lia).
  repeat case_decide; try lia.
  rewrite pretty_N_go_step by lia. apply pretty_N_go_app.
Qed.

Lemma pretty_N_length (x : N) : (1 ≤ String.length (pretty x))%nat.
Proof.
  destruct (decide (x < 10)%N).
  - by rewrite pretty_N_digit.
  - rewrite pretty_N_last, string_length_app by lia. simpl. lia.
Qed.

Lemma pretty_Z_nonneg (z : Z) : (0 ≤ z)%Z → pretty z = pretty (Z.to_N z).
Proof. intros Hz. by destruct z. Qed.

(** The digits of [n] hundredths: the whole part, a point, two digits. *)
Lemma fixed_digits_two (n : Z) :
  (0 ≤ n)%Z →
  fixed_digits n 2 =
    pretty (n `div` 100)%Z ++ "." ++ pretty ((n `div` 10) `mod` 10)%Z ++ pretty (n `mod` 10)%Z.
Proof.
  intros Hn.
  set (x := Z.to_N n).
  set (c1 := pretty_N_char ((x `div` 10) `mod` 10)%N).
  set (c0 := pretty_N_char (x `mod` 10)%N).
  assert (Hpad : zeros (2 + 1 - String.length (pretty x)) ++ pretty x
                 = pretty (x `div` 100)%N ++ String c1 (String c0 EmptyString)).
  { destruct (decide (x < 10)%N) as [H10|H10];
      [|destruct (decide (x < 100)%N) as [H100|H100]].
    - rewrite (pretty_N_digit x) by done.
      rewrite (N.div_small x 100) by lia. unfold c1, c0.
      rewrite (N.div_small x 10), (N.mod_small x 10) by lia. done.
    - rewrite (pretty_N_last x) by lia.
      rewrite (pretty_N_digit (x `div` 10)%N)
        by (apply N.Div0.div_lt_upper_bound; lia).
      rewrite (N.div_small x 100) by lia. unfold c1.
      rewrite (N.mod_small (x `div` 10) 10)%N
        by (apply N.Div0.div_lt_upper_bound; lia).
      done.
    - rewrite (pretty_N_last x) by lia.
      rewrite (pretty_N_last (x `div` 10)%N)
        by (apply N.div_le_lower_bound; lia).
      rewrite N.Div0.div_div. change (10 * 10)%N with 100%N.
      rewrite !string_length_app.
      pose proof (pretty_N_length (x `div` 100)%N).
      replace (2 + 1 - _) with 0 by (simpl; lia).
      cbn [zeros]. by rewrite string_app_assoc. }
  unfold fixed_digits. fold x. cbv zeta. rewrite Hpad.
  change (2 =? 0)%nat with false. cbv iota.
  rewrite string_length_app. change (String.length (String c1 (String c0 EmptyString))) with 2.
  replace (String.length (pretty (x `div` 100)%N) + 2 - 2)
    with (String.length (pretty (x `div` 100)%N)) by lia.
  rewrite substring_prefix.
  change 2 with (String.length (String c1 (String c0 EmptyString))) at 1.
  rewrite substring_suffix.
  rewrite !pretty_Z_nonneg
    by first [apply Z.mod_pos_bound; lia | apply Z.div_pos; lia].
  assert (Hd100 : Z.to_N (n `div` 100) = (x `div` 100)%N).
  { unfold x. by rewrite Z2N.inj_div by lia. }
  assert (Hd1 : Z.to_N ((n `div` 10) `mod` 10) = ((x `div` 10) `mod` 10)%N).
  { unfold x. rewrite Z2N.inj_mod by first [lia | apply Z.div_pos; lia].
    by rewrite Z2N.inj_div by lia. }
  assert (Hd0 : Z.to_N (n `mod` 10) = (x `mod` 10)%N).
  { unfold x. by rewrite Z2N.inj_mod by lia. }
  rewrite Hd100, Hd1, Hd0.
  rewrite (pretty_N_digit ((x `div` 10) `mod` 10)%N) by (apply N.mod_lt; lia).
  rewrite (pretty_N_digit (x `mod` 10)%N) by (apply N.mod_lt; lia).
  done.
Qed.

(** *** Reading sizes back *)

Lemma digit_cases (d : N) :
  (d < 10)%N →
  (d = 0 ∨ d = 1 ∨ d = 2 ∨ d = 3 ∨ d = 4 ∨ d = 5 ∨ d = 6 ∨ d = 7 ∨ d = 8 ∨ d = 9)%N.
Proof. lia. Qed.

Lemma digit_value_char (d : N) :
  (d < 10)%N → digit_value (pretty_N_char d) = Some (Z.of_N d).
Proof.
  intros Hd%digit_cases.
  destruct Hd as [->|[->|[->|[->|[->|[->|[->|[->|[->| ->]]]]]]]]]; reflexivity.
Qed.

(** A string that starts with a decimal digit is read from that digit on. *)
Lemma parseInt_from_digit (d : N) (rest : string) z :
  (d < 10)%N →
  leading_digits (String (pretty_N_char d) rest) None = Some z →
  parseInt (String (pretty_N_char d) rest) = Num (inject_Z z).
Proof.
  intros Hd%digit_cases Hz. unfold parseInt.
  destruct Hd as [->|[->|[->|[->|[->|[->|[->|[->|[->| ->]]]]]]]]].
  all: cbn [pretty_N_char] in *.
  all: match goal with
       | |- context [trim_start ?s] => change (trim_start s) with s
       end.
  all: cbv beta iota zeta.
  all: rewrite Hz; by rewrite Z.mul_1_l.
Qed.

Lemma leading_digits_pretty_go x : ∀ s acc,
  (0 < x)%N →
  ∃ p : nat,
    leading_digits (pretty_N_go x s) acc =
    leading_digits s (Some (default 0 acc * 10 ^ Z.of_nat p + Z.of_N x)%Z).
Proof.
  induction (N.lt_wf_0 x) as [x _ IH]; intros s acc Hx.
  rewrite pretty_N_go_step by done.
  destruct (decide (x `div` 10 = 0)%N) as [H0|H0].
  - rewrite H0, pretty_N_go_0. cbn [leading_digits].
    assert (x < 10)%N by (apply N.div_small_iff in H0; lia).
    rewrite digit_value_char by (apply N.mod_lt; lia).
    rewrite N.mod_small by done.
    exists 1%nat.
    replace (default 0 acc * 10 ^ Z.of_nat 1 + Z.of_N x)%Z
      with (10 * default 0 acc + Z.of_N x)%Z; [done|].
    change (Z.of_nat 1) with 1%Z. lia.
  - apply N.neq_0_lt_0 in H0.
    destruct (IH (x `div` 10)%N ltac:(apply N.div_lt; lia)
                 (String (pretty_N_char (x `mod` 10)) s) acc H0) as [p Hp].
    rewrite Hp. cbn [leading_digits].
    rewrite digit_value_char by (apply N.mod_lt; lia).
    exists (S p). cbn [default].
    replace (default 0 acc * 10 ^ Z.of_nat (S p) + Z.of_N x)%Z
      with (10 * (default 0 acc * 10 ^ Z.of_nat p + Z.of_N (x `div` 10))
            + Z.of_N (x `mod` 10))%Z; [done|].
    rewrite Nat2Z.inj_succ, Z.pow_succ_r by lia.
    pose proof (N.div_mod x 10 ltac:(lia)). lia.
Qed.

Lemma pretty_N_head (x : N) :
  ∃ d rest, (d < 10)%N ∧ pretty x = String (pretty_N_char d) rest.
Proof.
  induction (N.lt_wf_0 x) as [x _ IH].
  destruct (decide (x < 10)%N) as [Hx|Hx].
  - exists x, EmptyString. split; [done|]. by apply pretty_N_digit.
  - destruct (IH (x `div` 10)%N) as (d & rest & Hd & Hrest); [apply N.div_lt; lia|].
    exists d, (rest ++ String (pretty_N_char (x `mod` 10)) EmptyString).
    split; [done|]. rewrite pretty_N_last by lia. by rewrite Hrest.
Qed.

(** The decimal digits of a natural number read back as that number. *)
Lemma parseInt_pretty (n : nat) : reads_as (pretty n) (Z.of_nat n).
Proof.
  split; [|lia]. unfold pretty, pretty_nat.
  destruct (pretty_N_head (N.of_nat n)) as (d & rest & Hd & Hhead).
  rewrite Hhead. apply parseInt_from_digit; [done|]. rewrite <- Hhead.
  replace (Z.of_nat n) with (Z.of_N (N.of_nat n)) by lia.
  generalize (N.of_nat n) as x. clear. intros x.
  unfold pretty, pretty_N. case_decide as H0; [by subst|].
  destruct (leading_digits_pretty_go x EmptyString None) as [p Hp]; [lia|].
  rewrite Hp. cbn [leading_digits default]. f_equal.
Qed.

(** The size [save] records for a payload reads back as its length. *)
Lemma blob_of_size_reads (file : UploadedFile) :
  ∃ sz, size_field (blob_of file) = Some sz ∧
        reads_as sz (Z.of_nat (length (buffer file))).
Proof. eexists. split; [reflexivity|]. apply parseInt_pretty. Qed.

(** *** The storage total *)

Lemma accumulated_reads sizes : ∀ bytes q T,
  Forall2 reads_as (omap id sizes) bytes →
  (q == inject_Z T)%Q →
  ∃ q', accumulated (Num q) sizes = Num q' ∧ (q' == inject_Z (T + sum_bytes bytes))%Q.
Proof.
  unfold accumulated. induction (omap id sizes) as [|sz l IH]; intros bytes q T Hall Hq.
  - inversion Hall; subst. exists q. split; [done|]. simpl. by rewrite Z.add_0_r.
  - inversion Hall as [|? z ? bytes' [Hparse Hpos] Hall']; subst.
    simpl. rewrite Hparse. simpl.
    destruct (IH bytes' (q + inject_Z z)%Q (T + z)%Z Hall') as (q' & Hacc & Hq').
    { rewrite Hq. by rewrite inject_Z_plus. }
    exists q'. split; [done|]. rewrite Hq'. by rewrite Z.add_assoc.
Qed.

Lemma sum_bytes_nonneg sizes bytes :
  Forall2 reads_as sizes bytes → (0 ≤ sum_bytes bytes)%Z.
Proof.
  induction 1 as [|sz z sizes bytes [_ Hz] _ IH]; simpl; lia.
Qed.

(** [(T / 2^30).toFixed(2)] for a byte count [T]: the digits of the
    hundredths nearest to [T / 2^30], halves going up. *)
Lemma toFixed_GiB q T :
  (q == inject_Z T)%Q → (0 ≤ T)%Z →
  ∃ n : Z,
    toFixed (num_div (Num q) (Num (inject_Z GiB))) 2 = fixed_digits n 2 ∧
    (GiB * (2 * n - 1) ≤ 200 * T < GiB * (2 * n + 1))%Z.
Proof.
  intros Hq HT. unfold num_div.
  change (Qeq_bool (inject_Z GiB) 0) with false. cbv iota. unfold toFixed.
  assert (Hnonneg : (0 <= q / inject_Z GiB)%Q).
  { rewrite Hq. apply Qle_shift_div_l; [reflexivity|].
    rewrite Qmult_0_l. change (inject_Z 0 <= inject_Z T)%Q.
    rewrite <- Zle_Qle. apply HT. }
  apply Qle_bool_iff in Hnonneg as Hsign. rewrite Hsign.
  eexists. split; [reflexivity|].
  set (x := (Qabs (q / inject_Z GiB) * inject_Z (10 ^ Z.of_nat 2) + (1 # 2))%Q).
  assert (Hx : (x == (200 * T + GiB) # 2147483648)%Q).
  { unfold x. rewrite Qabs_pos by done. rewrite Hq.
    unfold Qeq, Qdiv, Qmult, Qplus, Qinv, inject_Z, GiB. simpl. lia. }
  rewrite (Qfloor_comp _ _ Hx). unfold Qfloor.
  change (Z.pos 2147483648) with (2 * GiB)%Z.
  pose proof (Z.div_mod (200 * T + GiB) (2 * GiB) ltac:(done)) as Hdm.
  pose proof (Z.mod_pos_bound (200 * T + GiB) (2 * GiB) ltac:(done)) as Hmod.
  unfold GiB in *. lia.
Qed.

(** C6.  A statistics request that answers with statistics reports the
    size of the download collection as [totalDownloads] and the number of
    objects the bucket lists, whatever the number of records, as
    [totalFiles].  When the sizes it read are byte counts with a total [T]
    up to [2^53], [storageUsed] is [T / 2^30] rounded to hundredths, a half
    going up: with [n] the nearest number of hundredths, it is the whole
    part of [n / 100], a point, and the two digits of [n mod 100]. *)
Theorem statistics_values w code stats w' :
  statistics w = (Returned (mkResponse code (StatisticsBody stats)), w') →
  let listing := (map_to_list (bucket w)).*1 in
  let sizes := readable_sizes (bucket w) (drop 2 (faults w)) listing in
  code = 200 ∧
  totalDownloads stats = size (downloads_coll w) ∧
  totalFiles stats = length listing ∧
  totalFiles stats = size (bucket w) ∧
  ∀ bytes,
    Forall2 reads_as (omap id sizes) bytes →
    (sum_bytes bytes ≤ 2 ^ 53)%Z →
    ∃ n : Z,
      (GiB * (2 * n - 1) ≤ 200 * sum_bytes bytes < GiB * (2 * n + 1))%Z ∧
      storageUsed stats =
        pretty (n `div` 100)%Z ++ "." ++ pretty ((n `div` 10) `mod` 10)%Z
        ++ pretty (n `mod` 10)%Z.
Proof.
  intros Hrun listing sizes.
  destruct (next_fault (faults w)) eqn:H0.
  { destruct (statistics_rejected w) as [w1 Hrej]; [by left|]. congruence. }
  destruct (next_fault (tail (faults w))) eqn:H1.
  { destruct (statistics_rejected w) as [w1 Hrej]; [by right|]. congruence. }
  destruct (statistics_answers w H0 H1) as (w1 & Hans & _).
  rewrite Hrun in Hans. inversion Hans; subst; clear Hans. simpl.
  assert (Hdrop : drop 2 (faults w) = tail (tail (faults w))).
  { by destruct (faults w) as [|? [|? ?]]. }
  repeat split.
  - by rewrite length_fmap, length_map_to_list.
  - intros bytes Hall Hsafe. subst sizes listing. rewrite Hdrop in Hall.
    pose proof (sum_bytes_nonneg _ _ Hall) as Hpos.
    destruct (accumulated_reads _ bytes 0%Q 0%Z Hall) as (q & -> & Hq); [done|].
    destruct (toFixed_GiB q (0 + sum_bytes bytes) Hq) as (n & -> & Hn); [lia|].
    exists n. split; [by rewrite Z.add_0_l in Hn|].
    apply fixed_digits_two. unfold GiB in Hn. lia.
Qed.

(** ** Formats *)

Lemma split_on_segments s :
  split_on "/" s =
    first_segment s :: match after_separator s with
                       | Some rest => split_on "/" rest
                       | None => []
                       end.
Proof.
  induction s as [|c s IH]; [done|].
  cbn [split_on first_segment after_separator].
  destruct (Ascii.eqb c "/"); [done|]. by rewrite IH.
Qed.

Lemma first_segment_whole s : after_separator s = None → first_segment s = s.
Proof.
  induction s as [|c s IH]; [done|]. cbn [first_segment after_separator].
  destruct (Ascii.eqb c "/"); [done|]. intros H. by rewrite IH.
Qed.

Lemma inherited_has_no_separator s :
  s ∈ object_prototype_properties → after_separator s = None.
Proof.
  unfold object_prototype_properties. intros H.
  repeat (apply elem_of_cons in H as [->|H]; [reflexivity|]).
  by apply elem_of_nil in H.
Qed.

(** C8, amended.  The classifier is a total function from a content type
    to a value.  For a content type the table maps to a label other than
    the empty string it returns that label.  For a content type absent from
    the table that has a [/] it returns the text from the first [/] up to
    the next [/] or the end, which is the whole substring after the [/] when
    there is only one.  For a content type absent from the table that has
    no [/] it returns no label: [undefined], or the inherited property when
    the content type names one. *)
Theorem classify_cases contentType :
  (∀ label,
     mimeTypeMapping !! contentType = Some label → label ≠ EmptyString →
     classify mimeTypeMapping contentType = VString label) ∧
  (∀ rest,
     mimeTypeMapping !! contentType = None →
     after_separator contentType = Some rest →
     classify mimeTypeMapping contentType = VString (first_segment rest) ∧
     (after_separator rest = None →
      classify mimeTypeMapping contentType = VString rest)) ∧
  (mimeTypeMapping !! contentType = None →
   after_separator contentType = None →
   classify mimeTypeMapping contentType =
     if bool_decide (contentType ∈ object_prototype_properties)
     then VInherited contentType else VUndefined).
Proof.
  unfold classify, property. repeat split.
  - intros label -> Hlabel. simpl. by destruct label.
  - rewrite H.
    assert (Hnot : contentType ∉ object_prototype_properties).
    { intros Hin. apply inherited_has_no_separator in Hin. congruence. }
    rewrite bool_decide_eq_false_2 by done. simpl.
    rewrite split_on_segments, H0. unfold element. simpl.
    by rewrite split_on_segments.
  - intros Hrest. rewrite H.
    assert (Hnot : contentType ∉ object_prototype_properties).
    { intros Hin. apply inherited_has_no_separator in Hin. congruence. }
    rewrite bool_decide_eq_false_2 by done. simpl.
    rewrite split_on_segments, H0. unfold element. simpl.
    by rewrite split_on_segments, first_segment_whole.
  - intros -> Hsep. case_bool_decide; [done|]. simpl.
    by rewrite split_on_segments, Hsep.
Qed.

Lemma blob_getMetadata_proceeds path w obj :
  fault_due w = false →
  bucket w !! path = Some obj →
  blob_getMetadata path w =
    (Returned (mkMetadata (size_field obj) (contentType obj)),
     record_call (BlobGetMetadata path) true (set_faults (tail (faults w)) w)).
Proof.
  intros Hf Hobj. unfold blob_getMetadata, external. rewrite Hf. simpl.
  by rewrite Hobj.
Qed.

Lemma blob_getMetadata_rejected path w :
  fault_due w = true →
  blob_getMetadata path w =
    (Thrown (ServiceFailure (BlobGetMetadata path)),
     record_call (BlobGetMetadata path) false (set_faults (tail (faults w)) w)).
Proof. intros Hf. unfold blob_getMetadata, external. by rewrite Hf. Qed.

(** The counting loop, when the first fault is due at the metadata call of
    the object number [k] (from 0) of the listing. *)
Lemma count_formats_throws k : ∀ files formats w fs file,
  (∀ f, f ∈ files → is_Some (bucket w !! f)) →
  files !! k = Some file →
  faults w = (replicate k false ++ true :: fs)%list →
  ∃ e w',
    count_formats mimeTypeMapping files formats w = (Thrown e, w') ∧
    trace w' = (trace w ++ map (fun f => (BlobGetMetadata f, true)) (take k files)
                ++ [(BlobGetMetadata file, false)])%list ∧
    bucket w' = bucket w ∧ files_coll w' = files_coll w.
Proof.
  induction k as [|k IH]; intros [|f files] formats w fs file Hin Hk Hfaults;
    try discriminate.
  - simpl in Hk. inversion Hk; subst f.
    eexists _, _. cbn [count_formats]. unfold bind at 1.
    rewrite blob_getMetadata_rejected; [|by unfold fault_due; rewrite Hfaults].
    split; [reflexivity|]. by destruct w.
  - simpl in Hk, Hfaults.
    destruct (Hin f) as [obj Hobj]; [by left|].
    set (w1 := record_call (BlobGetMetadata f) true (set_faults (tail (faults w)) w)).
    assert (Hstep : ∀ formats', ∃ e w',
      count_formats mimeTypeMapping files formats' w1 = (Thrown e, w') ∧
      trace w' = (trace w1 ++ map (fun f => (BlobGetMetadata f, true)) (take k files)
                  ++ [(BlobGetMetadata file, false)])%list ∧
      bucket w' = bucket w1 ∧ files_coll w' = files_coll w1).
    { intros formats'. apply (IH files formats' w1 fs file); [|done|].
      - intros f' Hf'. simpl. apply Hin. by right.
      - simpl. by rewrite Hfaults. }
    cbn [count_formats]. unfold bind at 1.
    rewrite (blob_getMetadata_proceeds f w obj);
      [|by unfold fault_due; rewrite Hfaults|done].
    fold w1. cbn [md_contentType].
    assert (Htrace : ∀ w', trace w' =
              (trace w1 ++ map (fun f => (BlobGetMetadata f, true)) (take k files)
               ++ [(BlobGetMetadata file, false)])%list →
              trace w' =
              (trace w ++ map (fun f => (BlobGetMetadata f, true)) (take (S k) (f :: files))
               ++ [(BlobGetMetadata file, false)])%list).
    { intros w' ->. simpl. by rewrite <- !app_assoc. }
    destruct (contentType obj) as [ct|]; [destruct (non_empty ct)|];
      match goal with
      | |- context [count_formats _ _ ?fm w1] =>
          destruct (Hstep fm) as (e & w' & Hrun & Ht & Hb & Hf)
      end;
      exists e, w'; rewrite Hrun; repeat split; auto.
Qed.

(** C9.  When the listing is in and the metadata call for one of its
    objects, number [k] (from 0), is the first call to reject, the formats
    request answers 500 with an error and no histogram: the counts of the
    [k] objects before are dropped, and no object after is looked at.  The
    statistics request under the same fault answers 200. *)
Theorem file_formats_no_recovery w k fs file :
  (map_to_list (bucket w)).*1 !! k = Some file →
  faults w = (false :: replicate k false ++ true :: fs)%list →
  (∃ w',
     file_formats mimeTypeMapping w =
       (Returned (mkResponse 500 (ErrorBody "Failed to fetch file formats")), w') ∧
     new_calls w w' =
       ((BucketGetFiles, true)
        :: map (fun f => (BlobGetMetadata f, true)) (take k (map_to_list (bucket w)).*1)
        ++ [(BlobGetMetadata file, false)])%list) ∧
  (∃ stats w',
     statistics (set_faults (false :: faults w) w) =
       (Returned (mkResponse 200 (StatisticsBody stats)), w')).
Proof.
  intros Hk Hfaults. split.
  - set (listing := (map_to_list (bucket w)).*1) in *.
    set (w1 := record_call BucketGetFiles true (set_faults (tail (faults w)) w)).
    destruct (count_formats_throws k listing [] w1 fs file) as (e & w' & Hrun & Ht & _).
    + intros f Hf. simpl. apply list_elem_of_fmap in Hf as [[f' obj] [-> Hf]].
      apply elem_of_map_to_list in Hf. simpl. eauto.
    + done.
    + simpl. by rewrite Hfaults.
    + exists (record_log LogError "Error fetching file formats:" w').
      assert (Hlist : bucket_getFiles w = (Returned listing, w1)).
      { subst w1 listing. clear -Hfaults. destruct w as [b c d t f tr co].
        simpl in Hfaults. subst f. reflexivity. }
      split.
      * unfold file_formats, try_catch, bind at 1. rewrite Hlist.
        unfold bind at 1. by rewrite Hrun.
      * unfold new_calls. simpl. apply new_calls_app. rewrite Ht. simpl.
        by rewrite <- !app_assoc.
  - destruct (statistics_answers (set_faults (false :: faults w) w))
      as (w' & Hrun & _); [done|by simpl; rewrite Hfaults|].
    eauto.
Qed.

(** ** Delete *)

Lemma delete_file_not_found fileId w :
  files_coll w !! fileId = None →
  fault_due w = false →
  delete_file fileId w =
    (Returned (mkResponse 404 (Message "File not found")),
     record_call (DocGet fileId) true (set_faults (tail (faults w)) w)).
Proof.
  intros Hnone Hfault. destruct w as [b c d t f tr co]. simpl in *.
  unfold fault_due in Hfault. simpl in Hfault.
  run. destruct f as [|[] f]; try discriminate; rewrite Hnone; reflexivity.
Qed.

(** What [GET /api/files] answers with, when it answers 200. *)
Lemma list_files_entries w w' entries :
  list_files toLocaleString w = (Returned (mkResponse 200 (FileList entries)), w') →
  ∀ e, e ∈ entries → is_Some (files_coll w !! entry_id e).
Proof.
  destruct w as [b c d t f tr co]. run.
  destruct f as [|[] f]; intros H; inversion H; subst; clear H;
    intros e He; apply list_elem_of_fmap in He as [[id data] [-> Hin]];
    apply elem_of_map_to_list in Hin; simpl; eauto.
Qed.

Lemma delete_file_outcome fileId w :
  ∃ response w',
    delete_file fileId w = (Returned response, w') ∧ delete_outcome fileId w response w'.
Proof.
  destruct w as [b c d t f tr co]. run.
  destruct f as [|f1 f]; [|destruct f1].
  2:{ eexists _, _; split; [reflexivity|].
      apply delete_lookup_failed; try reflexivity.
      unfold new_calls; simpl. by apply new_calls_app. }
  all: destruct (c !! fileId) as [record|] eqn:Hrec.
  all: try (eexists _, _; split; [reflexivity|];
            apply delete_no_record; try done;
            unfold new_calls; simpl; by apply new_calls_app).
  - destruct (b !! ("files/" ++ fileName record)) as [obj|] eqn:Hblob;
      (eexists _, _; split; [reflexivity|]).
    + eapply delete_done; simpl; eauto.
      unfold new_calls; simpl. apply new_calls_app. by rewrite <- !app_assoc.
    + eapply delete_blob_failed; simpl; eauto.
      unfold new_calls; simpl. apply new_calls_app. by rewrite <- !app_assoc.
  - destruct f as [|f2 f]; [|destruct f2].
    2:{ eexists _, _; split; [reflexivity|].
        eapply delete_blob_failed; simpl; eauto.
        unfold new_calls; simpl. apply new_calls_app. by rewrite <- !app_assoc. }
    all: destruct (b !! ("files/" ++ fileName record)) as [obj|] eqn:Hblob.
    all: try (eexists _, _; split; [reflexivity|];
              eapply delete_blob_failed; simpl; eauto;
              unfold new_calls; simpl; apply new_calls_app; by rewrite <- !app_assoc).
    + eexists _, _; split; [reflexivity|].
      eapply delete_done; simpl; eauto.
      unfold new_calls; simpl. apply new_calls_app. by rewrite <- !app_assoc.
    + destruct f as [|f3 f]; [|destruct f3];
        (eexists _, _; split; [reflexivity|]).
      * eapply delete_done; simpl; eauto.
        unfold new_calls; simpl. apply new_calls_app. by rewrite <- !app_assoc.
      * eapply delete_record_failed; simpl; eauto.
        unfold new_calls; simpl. apply new_calls_app. by rewrite <- !app_assoc.
      * eapply delete_done; simpl; eauto.
        unfold new_calls; simpl. apply new_calls_app. by rewrite <- !app_assoc.
Qed.

(** C4.  When the record of [fileId] exists, the delete request removes
    the blob at [files/<fileName>] before it removes the record: a call
    deleting the record is only ever made right after a successful delete of
    the blob.  So when the blob delete succeeds and the record delete fails,
    the request answers 500, the blob is gone, the record is still there,
    and nothing puts the blob back. *)
Theorem delete_blob_before_record fileId w record response w' :
  files_coll w !! fileId = Some record →
  delete_file fileId w = (Returned response, w') →
  let path := "files/" ++ fileName record in
  (∀ ok, (DocDelete fileId, ok) ∈ new_calls w w' →
     new_calls w w' = [(DocGet fileId, true); (BlobDelete path, true); (DocDelete fileId, ok)]) ∧
  (new_calls w w' = [(DocGet fileId, true); (BlobDelete path, true); (DocDelete fileId, false)] →
     response = mkResponse 500 (Message "Failed to delete file") ∧
     bucket w' = delete path (bucket w) ∧
     bucket w' !! path = None ∧
     files_coll w' = files_coll w ∧
     files_coll w' !! fileId = Some record).
Proof.
  intros Hrec Hrun path.
  destruct (delete_file_outcome fileId w) as (r & w1 & Hrun' & Hout).
  rewrite Hrun in Hrun'. inversion Hrun'; subst r w1; clear Hrun'.
  inversion Hout as [w1 ? ? ? Hc|w1 ? Hn ? ? Hc|r w1 Hr ? ? Hc
                    |r w1 Hr ? Hb Hf Hc|r w1 Hr ? Hb Hf Hc]; subst;
    try (rewrite Hrec in Hr; inversion Hr; subst r);
    try congruence; rewrite Hc; (split; [intros ok Hin|intros Heq]);
    repeat match goal with
           | H : _ ∈ _ :: _ |- _ => apply elem_of_cons in H as [H|H]
           | H : _ ∈ [] |- _ => by apply elem_of_nil in H
           end;
    try congruence; try discriminate.
  - by inversion Hin.
  - repeat split; try done.
    + rewrite Hb. apply lookup_delete_eq.
    + by rewrite Hf.
  - by inversion Hin.
Qed.

(** C5.  After a delete request answered 200, the blob at the record's
    path [files/<fileName>] and the record are both gone, and a list
    request made next has no entry with that id.  A delete request for an
    id without a record, once the lookup has gone through, answers 404 and
    leaves both stores as they were. *)
Theorem delete_file_complete fileId w :
  (∀ body w',
     delete_file fileId w = (Returned (mkResponse 200 body), w') →
     ∃ record,
       files_coll w !! fileId = Some record ∧
       bucket w' !! ("files/" ++ fileName record) = None ∧
       files_coll w' !! fileId = None ∧
       ∀ code entries w'',
         list_files toLocaleString w' = (Returned (mkResponse code (FileList entries)), w'') →
         ∀ e, e ∈ entries → entry_id e ≠ fileId) ∧
  (files_coll w !! fileId = None → fault_due w = false →
     ∃ w',
       delete_file fileId w = (Returned (mkResponse 404 (Message "File not found")), w') ∧
       bucket w' = bucket w ∧ files_coll w' = files_coll w ∧
       downloads_coll w' = downloads_coll w).
Proof.
  split.
  - intros body w' Hrun.
    destruct (delete_file_outcome fileId w) as (r & w1 & Hrun' & Hout).
    rewrite Hrun in Hrun'. inversion Hrun'; subst r w1; clear Hrun'.
    inversion Hout as [| | | |r w1 Hr ? Hb Hf Hc]; subst.
    exists r. split; [done|]. split; [rewrite Hb; apply lookup_delete_eq|].
    assert (Hgone : files_coll w' !! fileId = None)
      by (rewrite Hf; apply lookup_delete_eq).
    split; [done|].
    intros code entries w'' Hlist e He Heq.
    assert (code = 200) as ->.
    { destruct w' as [b c d t f tr co]. revert Hlist. run.
      destruct f as [|[] f]; intros Hl; by inversion Hl. }
    destruct (list_files_entries _ _ _ Hlist e He) as [x Hx]. congruence.

  - intros Hnone Hfault. eexists. split; [by apply delete_file_not_found|].
    by destruct w.
Qed.

Lemma delete_repeatedly_unchanged fileId record n : ∀ w,
  files_coll w !! fileId = Some record →
  bucket w !! ("files/" ++ fileName record) = None →
  files_coll (delete_repeatedly n fileId w) = files_coll w ∧
  bucket (delete_repeatedly n fileId w) = bucket w.
Proof.
  induction n as [|n IH]; intros w Hrec Hblob; [done|]. simpl.
  destruct (delete_file_outcome fileId w) as (r & w1 & Hrun & Hout).
  rewrite Hrun. simpl.
  assert (files_coll w1 = files_coll w ∧ bucket w1 = bucket w) as [Hf Hb].
  { inversion Hout as [w2 ? ? ? Hc|w2 ? Hn ? ? Hc|r2 w2 Hr ? ? Hc
                      |r2 w2 Hr [x Hx] Hb Hf Hc|r2 w2 Hr [x Hx] Hb Hf Hc]; subst;
      try done; rewrite Hrec in Hr; inversion Hr; subst r2; congruence. }
  destruct (IH w1) as [IHf IHb]; [by rewrite Hf|by rewrite Hb|].
  split; congruence.
Qed.

(** C10.  When the record of [fileId] exists and there is no blob at
    [files/<fileName>], the delete request answers 500 and leaves the record
    and the bucket as they were: the blob delete, when the request gets to
    it, fails, and the record delete is never called.  The same holds for
    any number of further delete requests, so the record stays. *)
Theorem delete_dangling_record_stays fileId w record :
  files_coll w !! fileId = Some record →
  bucket w !! ("files/" ++ fileName record) = None →
  (∃ w',
     delete_file fileId w = (Returned (mkResponse 500 (Message "Failed to delete file")), w') ∧
     files_coll w' = files_coll w ∧
     bucket w' = bucket w ∧
     (fault_due w = false →
        new_calls w w' = [(DocGet fileId, true);
                          (BlobDelete ("files/" ++ fileName record), false)]) ∧
     (∀ ok, (DocDelete fileId, ok) ∉ new_calls w w')) ∧
  (∀ n, files_coll (delete_repeatedly n fileId w) !! fileId = Some record).
Proof.
  intros Hrec Hblob. split.
  - destruct (delete_file_outcome fileId w) as (r & w1 & Hrun & Hout).
    exists w1.
    inversion Hout as [w2 Hd ? ? Hc|w2 ? Hn ? ? Hc|r2 w2 Hr ? ? Hc
                      |r2 w2 Hr [x Hx] Hb Hf Hc|r2 w2 Hr [x Hx] Hb Hf Hc]; subst;
      try (rewrite Hrec in Hr; inversion Hr; subst r2); try congruence.
    + repeat split; try done; [congruence|].
      intros ok Hin. rewrite Hc in Hin.
      apply elem_of_cons in Hin as [Hin|Hin]; [discriminate|by apply elem_of_nil in Hin].
    + repeat split; try done.
      intros ok Hin. rewrite Hc in Hin.
      repeat (apply elem_of_cons in Hin as [Hin|Hin]; [discriminate|]).
      by apply elem_of_nil in Hin.
  - intros n. destruct (delete_repeatedly_unchanged fileId record n w Hrec Hblob) as [-> _].
    done.
Qed.

End Properties.

(** * Further properties *)

Section Further.

Variable signedUrl : string → string.
Variable toLocaleString : Z → string.
Variable mimeTypeMapping : gmap string string.

Ltac run_all :=
  cbv beta iota zeta delta
    [upload upload_one delete_file list_files statistics file_formats add_size
     try_catch bind ret get_world console_error console_warn
     external fault_due next_fault succeeded
     blob_save blob_getSignedUrl blob_delete bucket_getFiles blob_getMetadata
     collection_add files_get downloads_get doc_get doc_delete
     set_bucket set_files_coll set_faults record_call record_log
     bucket files_coll downloads_coll clock faults trace console
     md_size md_contentType tail fst snd].

(** ** Upload under any schedule *)

Lemma fresh_record_kept (coll : gmap string FileRecord) r :
  coll ⊆ <[fresh (dom coll) := r]> coll.
Proof. apply insert_subseteq, not_elem_of_dom, is_fresh. Qed.

Lemma blob_kept (b : gmap string BlobObject) path obj :
  dom b ⊆ dom (<[path := obj]> b).
Proof. rewrite dom_insert_L. set_solver. Qed.

(** One turn of the loop, whatever the schedule: it keeps every record and
    every path of the bucket, and calls nothing that deletes. *)
Lemma upload_one_keeps file name urls w :
  ∃ o w1 calls,
    upload_one signedUrl file name urls w = (o, w1) ∧
    files_coll w ⊆ files_coll w1 ∧
    dom (bucket w) ⊆ dom (bucket w1) ∧
    downloads_coll w1 = downloads_coll w ∧
    trace w1 = (trace w ++ calls)%list ∧
    Forall (fun entry => is_deletion entry.1 = false) calls.
Proof.
  destruct w as [b c d t f tr co]. run_all.
  destruct f as [|[] [|[] [|[] f]]];
    eexists _, _, _; (split; [reflexivity|]); simpl;
    rewrite <- ?app_assoc;
    (split; [first [done | apply fresh_record_kept]|]);
    (split; [first [done | apply blob_kept]|]);
    (split; [done|]); (split; [reflexivity|]);
    repeat constructor.
Qed.

Lemma upload_each_keeps files : ∀ names urls w,
  ∃ o w' calls,
    upload_each signedUrl files names urls w = (o, w') ∧
    files_coll w ⊆ files_coll w' ∧
    dom (bucket w) ⊆ dom (bucket w') ∧
    downloads_coll w' = downloads_coll w ∧
    trace w' = (trace w ++ calls)%list ∧
    Forall (fun entry => is_deletion entry.1 = false) calls.
Proof.
  induction files as [|file files IH]; intros [|name names] urls w;
    try (exists (Returned urls), w, []; rewrite app_nil_r; by repeat split).
  destruct (upload_one_keeps file name urls w)
    as (o1 & w1 & calls1 & Hone & Hf1 & Hb1 & Hd1 & Ht1 & Hc1).
  cbn [upload_each]. unfold bind at 1. rewrite Hone.
  destruct o1 as [urls1|e].
  - destruct (IH names urls1 w1) as (o & w' & calls & Hrun & Hf & Hb & Hd & Ht & Hc).
    exists o, w', (calls1 ++ calls)%list. rewrite Hrun. repeat split.
    + by etrans.
    + by etrans.
    + congruence.
    + by rewrite Ht, Ht1, app_assoc.
    + by apply Forall_app.
  - by exists (Thrown e), w1, calls1.
Qed.

(** X1. Whatever the request and whatever rejects, an upload takes nothing
    away: every record it found is still there unchanged, every path of the
    bucket still holds an object, the download collection is the same, and
    none of its calls is a delete. *)
Theorem upload_takes_nothing_away files fileNames w :
  let w' := (upload signedUrl files fileNames w).2 in
  files_coll w ⊆ files_coll w' ∧
  dom (bucket w) ⊆ dom (bucket w') ∧
  downloads_coll w' = downloads_coll w ∧
  Forall (fun entry => is_deletion entry.1 = false) (new_calls w w').
Proof.
  assert (Hsame : files_coll w ⊆ files_coll w ∧ dom (bucket w) ⊆ dom (bucket w) ∧
                  downloads_coll w = downloads_coll w ∧
                  Forall (fun entry => is_deletion entry.1 = false) (new_calls w w)).
  { unfold new_calls. by rewrite drop_all. }
  destruct files as [files|], fileNames as [names|]; try exact Hsame.
  destruct (Nat.eqb_spec (length files) (length names)) as [Hlen|Hne].
  - clear Hsame. rewrite upload_guard_passed by done.
    destruct (upload_each_keeps files names [] w)
      as (o & w1 & calls & Hrun & Hf & Hb & Hd & Ht & Hc).
    rewrite Hrun.
    assert (Hnew : ∀ w2, trace w2 = trace w1 → new_calls w w2 = calls).
    { intros w2 H2. unfold new_calls. rewrite H2, Ht. by rewrite drop_app_length. }
    destruct o as [urls|e]; cbn [snd]; rewrite Hnew by done; by destruct w1.
  - unfold upload. apply Nat.eqb_neq in Hne. rewrite Hne. exact Hsame.
Qed.

(** ** The bucket after an upload *)

Lemma lookup_write_blobs pairs : ∀ (b : gmap string BlobObject) path,
  write_blobs pairs b !! path =
    match last_write pairs path with
    | Some obj => Some obj
    | None => b !! path
    end.
Proof.
  induction pairs as [|pair pairs IH]; intros b path; [done|].
  unfold write_blobs in *. cbn [foldl last_write].
  rewrite IH. destruct (last_write pairs path); [done|].
  destruct (decide ("files/" ++ pair.2 = path)) as [->|Hne].
  - by rewrite lookup_insert_eq.
  - by rewrite lookup_insert_ne.
Qed.

Lemma last_write_other pairs path :
  (∀ pair, pair ∈ pairs → "files/" ++ pair.2 ≠ path) →
  last_write pairs path = None.
Proof.
  induction pairs as [|pair pairs IH]; intros Hne; [done|].
  cbn [last_write]. rewrite IH by (intros p Hp; apply Hne; by right).
  rewrite decide_False; [done|]. apply Hne. by left.
Qed.

Lemma last_write_at pairs : ∀ i file name,
  pairs !! i = Some (file, name) →
  (∀ j pair, i < j → pairs !! j = Some pair → pair.2 ≠ name) →
  last_write pairs ("files/" ++ name) = Some (blob_of file).
Proof.
  induction pairs as [|pair pairs IH]; intros i file name Hi Hlater; [done|].
  cbn [last_write]. destruct i as [|i].
  - simpl in Hi. inversion Hi; subst pair.
    rewrite last_write_other.
    + by rewrite decide_True.
    + intros p Hp Heq. apply list_elem_of_lookup in Hp as [j Hj].
      apply (Hlater (S j) p); [lia|done|]. by apply (inj (String.app "files/")) in Heq.
  - by rewrite (IH i file name Hi)
      by (intros j p Hj Hp; apply (Hlater (S j) p); [lia|done]).
Qed.

(** X2. After an upload answered 200, the object at [files/<name>] is the
    payload of the last pair that declares [name], with that pair's content
    type: a later pair of the batch silently replaces an earlier one, as
    the batch replaces what the bucket had.  Every other path of the bucket
    is as it was. *)
Theorem upload_last_write_wins files fileNames w body w' :
  upload signedUrl (Some files) (Some fileNames) w = (Returned (mkResponse 200 body), w') →
  (∀ i file name,
     files !! i = Some file → fileNames !! i = Some name →
     (∀ j later, i < j → fileNames !! j = Some later → later ≠ name) →
     bucket w' !! ("files/" ++ name) = Some (blob_of file)) ∧
  (∀ path,
     (∀ name, name ∈ fileNames → path ≠ "files/" ++ name) →
     bucket w' !! path = bucket w !! path).
Proof.
  intros Hrun.
  assert (Hlen : length files = length fileNames).
  { unfold upload in Hrun.
    destruct (Nat.eqb_spec (length files) (length fileNames)); [done|by inversion Hrun]. }
  rewrite upload_guard_passed in Hrun by done.
  destruct (upload_each signedUrl files fileNames [] w) as [[urls|e] w1] eqn:Heach;
    [|by inversion Hrun].
  inversion Hrun; subst body w1; clear Hrun.
  apply upload_each_returns in Heach as (_ & _ & Hb & _); [|done].
  rewrite Hb. split.
  - intros i file name Hfile Hname Hlater. rewrite lookup_write_blobs.
    rewrite (last_write_at _ i file name); [done| |].
    + apply lookup_zip_with_Some. eauto.
    + intros j [file' name'] Hj Hp.
      apply lookup_zip_with_Some in Hp as (? & ? & [= <- <-] & _ & Hn).
      by apply (Hlater j).
  - intros path Hother. rewrite lookup_write_blobs, last_write_other; [done|].
    intros [file name] Hin Heq. apply (Hother name); [|done].
    apply list_elem_of_lookup in Hin as [i Hi].
    apply lookup_zip_with_Some in Hi as (? & ? & [= <- <-] & _ & Hn).
    by eapply list_elem_of_lookup_2.
Qed.

Lemma appended_subseteq recs (coll coll' : gmap string FileRecord) :
  appended recs coll coll' → coll ⊆ coll'.
Proof.
  intros (ids & Hlen & _ & Hnew & ->). apply map_union_subseteq_r.
  apply map_disjoint_list_to_map_zip_l; [done|]. by apply Forall_forall.
Qed.

Lemma upload_answered files fileNames w body w' :
  upload signedUrl (Some files) (Some fileNames) w = (Returned (mkResponse 200 body), w') →
  length files = length fileNames ∧
  body = Uploaded "Files uploaded successfully"
           (map (fun name => signedUrl ("files/" ++ name)) fileNames) ∧
  appended (map (record_of signedUrl (clock w)) fileNames) (files_coll w) (files_coll w') ∧
  bucket w' = write_blobs (zip files fileNames) (bucket w) ∧
  downloads_coll w' = downloads_coll w ∧
  clock w' = clock w.
Proof.
  intros Hrun.
  assert (Hlen : length files = length fileNames).
  { unfold upload in Hrun.
    destruct (Nat.eqb_spec (length files) (length fileNames)); [done|by inversion Hrun]. }
  rewrite upload_guard_passed in Hrun by done.
  destruct (upload_each signedUrl files fileNames [] w) as [[urls|e] w1] eqn:Heach;
    [|by inversion Hrun].
  inversion Hrun; subst body w1; clear Hrun.
  apply upload_each_returns in Heach as (-> & Happ & Hb & _ & Hd & Hc & _); [|done].
  by repeat split.
Qed.

(** X3. Sending a batch again after it went through writes the same blobs
    over themselves and appends every record a second time: the bucket and
    the links are those of the first time, the collection has grown by
    twice the batch. *)
Theorem upload_retry_duplicates files fileNames w body1 w1 body2 w2 :
  upload signedUrl (Some files) (Some fileNames) w = (Returned (mkResponse 200 body1), w1) →
  upload signedUrl (Some files) (Some fileNames) w1 = (Returned (mkResponse 200 body2), w2) →
  bucket w2 = bucket w1 ∧
  body2 = body1 ∧
  size (files_coll w2) = size (files_coll w) + 2 * length files ∧
  (∀ name, name ∈ fileNames →
     ∃ id1 id2, id1 ≠ id2 ∧
       files_coll w !! id1 = None ∧ files_coll w !! id2 = None ∧
       fileName <$> files_coll w2 !! id1 = Some name ∧
       fileName <$> files_coll w2 !! id2 = Some name).
Proof.
  intros H1 H2.
  apply upload_answered in H1 as (Hlen & -> & Happ1 & Hb1 & _ & _).
  apply upload_answered in H2 as (_ & -> & Happ2 & Hb2 & _ & _).
  repeat split.
  - rewrite Hb2, Hb1. apply map_eq. intros path.
    rewrite !lookup_write_blobs. by destruct (last_write _ path).
  - rewrite (appended_size _ _ _ Happ2), (appended_size _ _ _ Happ1), !length_map. lia.
  - intros name Hname. apply list_elem_of_lookup in Hname as [i Hi].
    destruct (appended_lookup _ _ _ i (record_of signedUrl (clock w) name) Happ1)
      as (id1 & Hnew1 & Hin1); [by rewrite list_lookup_fmap, Hi|].
    destruct (appended_lookup _ _ _ i (record_of signedUrl (clock w1) name) Happ2)
      as (id2 & Hnew2 & Hin2); [by rewrite list_lookup_fmap, Hi|].
    assert (Hkept : files_coll w2 !! id1 = Some (record_of signedUrl (clock w) name)).
    { eapply lookup_weaken; [done|]. by eapply appended_subseteq. }
    exists id1, id2. repeat split.
    + intros ->. congruence.
    + done.
    + destruct (files_coll w !! id2) as [r|] eqn:Hold; [|done].
      eapply lookup_weaken in Hold; [|by eapply appended_subseteq]. congruence.
    + by rewrite Hkept.
    + by rewrite Hin2.
Qed.

(** ** List *)

Lemma list_files_outcome w :
  ∃ w',
    list_files toLocaleString w =
      (Returned (if fault_due w
                 then mkResponse 500 (Message "Failed to fetch files")
                 else mkResponse 200
                        (FileList (entry_of toLocaleString <$> map_to_list (files_coll w)))),
       w') ∧
    bucket w' = bucket w ∧ files_coll w' = files_coll w ∧
    downloads_coll w' = downloads_coll w ∧ faults w' = tail (faults w) ∧
    new_calls w w' = [(CollectionGet "files", negb (fault_due w))].
Proof.
  destruct w as [b c d t f tr co]. unfold new_calls. run_all.
  destruct f as [|[] f]; eexists; (split; [reflexivity|]); simpl;
    by rewrite drop_app_length.
Qed.

(** X4. The list request makes one call.  When it goes through, the answer
    is 200 with one entry for each record and no other: the identifier, the
    name and the link are the record's, the date is the record's date as a
    display string.  When it rejects, the answer is 500.  Neither store
    changes. *)
Theorem list_files_exact w :
  ∃ response w',
    list_files toLocaleString w = (Returned response, w') ∧
    bucket w' = bucket w ∧ files_coll w' = files_coll w ∧
    downloads_coll w' = downloads_coll w ∧
    new_calls w w' = [(CollectionGet "files", negb (fault_due w))] ∧
    (fault_due w = true → response = mkResponse 500 (Message "Failed to fetch files")) ∧
    (fault_due w = false →
       ∃ entries,
         response = mkResponse 200 (FileList entries) ∧
         length entries = size (files_coll w) ∧
         NoDup (entry_id <$> entries) ∧
         ∀ e, e ∈ entries ↔
              ∃ id record, files_coll w !! id = Some record ∧
                           e = mkFileEntry id (fileName record)
                                 (toLocaleString (uploadDate record)) (fileURL record)).
Proof.
  destruct (list_files_outcome w) as (w' & Hrun & Hb & Hf & Hd & _ & Hc).
  eexists _, w'. split; [exact Hrun|]. repeat split; try done.
  - by intros ->.
  - intros ->. eexists. split; [reflexivity|]. repeat split.
    + by rewrite length_fmap, length_map_to_list.
    + rewrite <- list_fmap_compose.
      assert (Hext : (entry_id ∘ entry_of toLocaleString) <$> map_to_list (files_coll w)
                     = (map_to_list (files_coll w)).*1) by (by apply list_fmap_ext).
      rewrite Hext. apply NoDup_fst_map_to_list.
    + intros He. apply list_elem_of_fmap in He as [[id record] [-> Hin]].
      apply elem_of_map_to_list in Hin. by exists id, record.
    + intros (id & record & Hin & ->). apply list_elem_of_fmap.
      exists (id, record). split; [done|]. by apply elem_of_map_to_list.
Qed.

(** X5. A list request answered 200 right after an upload answered 200
    shows every declared name with the link the upload returned for it,
    under an identifier the collection did not have before, and has as many
    entries more than records before as the batch had pairs. *)
Theorem upload_then_list files fileNames w body w1 code entries w2 :
  upload signedUrl (Some files) (Some fileNames) w = (Returned (mkResponse 200 body), w1) →
  list_files toLocaleString w1 = (Returned (mkResponse code (FileList entries)), w2) →
  length entries = size (files_coll w) + length files ∧
  ∀ name, name ∈ fileNames →
    ∃ e, e ∈ entries ∧
         entry_fileName e = name ∧
         entry_fileURL e = signedUrl ("files/" ++ name) ∧
         entry_uploadDate e = toLocaleString (clock w) ∧
         files_coll w !! entry_id e = None.
Proof.
  intros Hup Hlist.
  apply upload_answered in Hup as (Hlen & _ & Happ & _).
  destruct (list_files_outcome w1) as (w' & Hrun & _).
  rewrite Hlist in Hrun. destruct (fault_due w1); [by inversion Hrun|].
  inversion Hrun; subst; clear Hrun. split.
  - rewrite length_fmap, length_map_to_list, (appended_size _ _ _ Happ), length_map. lia.
  - intros name Hname. apply list_elem_of_lookup in Hname as [i Hi].
    destruct (appended_lookup _ _ _ i (record_of signedUrl (clock w) name) Happ)
      as (id & Hnew & Hin); [by rewrite list_lookup_fmap, Hi|].
    exists (entry_of toLocaleString (id, record_of signedUrl (clock w) name)).
    split; [|done].
    apply list_elem_of_fmap. eexists. split; [reflexivity|].
    by apply elem_of_map_to_list.
Qed.

(** ** Delete *)

(** X6. Whatever happens, a delete request for [fileId] touches nothing
    but the record of [fileId] and the blob that record names: every other
    record and every other path of the bucket is as before, the download
    collection too. *)
Theorem delete_touches_one fileId w :
  let w' := (delete_file fileId w).2 in
  (∀ id, id ≠ fileId → files_coll w' !! id = files_coll w !! id) ∧
  (∀ path,
     (∀ record, files_coll w !! fileId = Some record →
                path ≠ "files/" ++ fileName record) →
     bucket w' !! path = bucket w !! path) ∧
  downloads_coll w' = downloads_coll w.
Proof.
  destruct w as [b c d t f tr co]. run_all.
  destruct f as [|[] [|[] [|[] f]]];
    try destruct (c !! fileId) as [record|] eqn:Hrec;
    try destruct (b !! ("files/" ++ fileName record)) as [obj|] eqn:Hblob;
    simpl; (split; [|split]); try done;
    try (intros id Hid; by rewrite lookup_delete_ne);
    intros path Hpath; rewrite lookup_delete_ne; try done;
    intros <-; by apply (Hpath record).
Qed.

(** X7. Two records with one name share one blob.  Once a delete request
    for one of them was answered 200, the blob is gone with it, the other
    record is still there, and every delete request for the other is
    answered 500 and leaves it there. *)
Theorem delete_strands_namesake id1 id2 w r1 r2 body w1 :
  id1 ≠ id2 →
  files_coll w !! id1 = Some r1 →
  files_coll w !! id2 = Some r2 →
  fileName r1 = fileName r2 →
  delete_file id1 w = (Returned (mkResponse 200 body), w1) →
  bucket w1 !! ("files/" ++ fileName r2) = None ∧
  files_coll w1 !! id2 = Some r2 ∧
  (∀ n,
     let w2 := delete_repeatedly n id2 w1 in
     files_coll w2 !! id2 = Some r2 ∧
     ∃ w3, delete_file id2 w2 =
             (Returned (mkResponse 500 (Message "Failed to delete file")), w3)).
Proof.
  intros Hne H1 H2 Hname Hrun.
  destruct (delete_file_outcome id1 w) as (r & w' & Hrun' & Hout).
  rewrite Hrun in Hrun'. inversion Hrun'; subst r w'; clear Hrun'.
  inversion Hout as [| | | |r w' Hr ? Hb Hf Hc]; subst.
  rewrite H1 in Hr. inversion Hr; subst r; clear Hr.
  assert (Hgone : bucket w1 !! ("files/" ++ fileName r2) = None).
  { rewrite Hb, <- Hname. apply lookup_delete_eq. }
  assert (Hstill : files_coll w1 !! id2 = Some r2).
  { rewrite Hf. by rewrite lookup_delete_ne. }
  split; [done|]. split; [done|]. intros n w2.
  destruct (delete_repeatedly_unchanged id2 r2 n w1 Hstill Hgone) as [Hf2 Hb2].
  fold w2 in Hf2, Hb2. split; [by rewrite Hf2|].
  destruct (delete_file_outcome id2 w2) as (r & w3 & Hrun2 & Hout2).
  exists w3. rewrite Hrun2. do 2 f_equal.
  inversion Hout2 as [|? ? Hn|r' ? Hr'|r' ? Hr' [x Hx]|r' ? Hr' [x Hx]]; subst;
    try done; rewrite Hf2, Hstill in *; simplify_eq;
    rewrite Hb2, Hgone in Hx; discriminate.
Qed.

(** ** Statistics and formats *)

Lemma fault_free_next n fs :
  fault_free (S n) fs → next_fault fs = false ∧ fault_free n (tail fs).
Proof.
  unfold fault_free. destruct fs as [|[] fs]; simpl.
  - rewrite take_nil. by split.
  - intros H. by inversion H.
  - intros H. by inversion H.
Qed.

Lemma fault_free_drop n m fs :
  fault_free (n + m) fs → fault_free m (drop n fs).
Proof.
  revert fs. induction n as [|n IH]; intros fs H; [by rewrite drop_0|].
  apply fault_free_next in H as [_ H]. destruct fs as [|flag fs].
  - unfold fault_free. simpl. by rewrite take_nil.
  - by apply IH.
Qed.

Lemma statistics_reads_only w :
  bucket (statistics w).2 = bucket w ∧
  files_coll (statistics w).2 = files_coll w ∧
  downloads_coll (statistics w).2 = downloads_coll w.
Proof.
  destruct (next_fault (faults w)) eqn:H0; [|destruct (next_fault (tail (faults w))) eqn:H1].
  - destruct w as [b c d t f tr co]. simpl in H0. run_all.
    by destruct f as [|[] f].
  - destruct w as [b c d t f tr co]. simpl in H0, H1. run_all.
    by destruct f as [|[] [|[] f]].
  - destruct (statistics_answers w H0 H1) as (w' & -> & Hb & Hf & Hd & _). done.
Qed.

Lemma blob_getMetadata_keeps path w :
  ∃ o w1,
    blob_getMetadata path w = (o, w1) ∧
    bucket w1 = bucket w ∧ files_coll w1 = files_coll w ∧
    downloads_coll w1 = downloads_coll w.
Proof.
  destruct w as [b c d t f tr co]. run_all.
  destruct f as [|[] f]; try destruct (b !! path); by eexists _, _.
Qed.

Lemma count_formats_keeps files : ∀ formats w,
  ∃ o w',
    count_formats mimeTypeMapping files formats w = (o, w') ∧
    bucket w' = bucket w ∧ files_coll w' = files_coll w ∧
    downloads_coll w' = downloads_coll w.
Proof.
  induction files as [|file files IH]; intros formats w; [by eexists _, _|].
  destruct (blob_getMetadata_keeps file w) as (o1 & w1 & Hone & Hb1 & Hf1 & Hd1).
  cbn [count_formats]. unfold bind at 1. rewrite Hone.
  destruct o1 as [md|e]; [|by eexists _, _].
  destruct (md_contentType md) as [ct|]; [destruct (non_empty ct)|];
    match goal with
    | |- context [count_formats _ _ ?fm w1] =>
        destruct (IH fm w1) as (o & w' & Hrun & Hb & Hf & Hd)
    end;
    exists o, w'; rewrite Hrun; repeat split; congruence.
Qed.

Lemma bucket_getFiles_keeps w :
  ∃ o w1,
    bucket_getFiles w = (o, w1) ∧
    bucket w1 = bucket w ∧ files_coll w1 = files_coll w ∧
    downloads_coll w1 = downloads_coll w.
Proof.
  destruct w as [b c d t f tr co]. run_all.
  destruct f as [|[] f]; by eexists _, _.
Qed.

Lemma file_formats_reads_only w :
  bucket (file_formats mimeTypeMapping w).2 = bucket w ∧
  files_coll (file_formats mimeTypeMapping w).2 = files_coll w ∧
  downloads_coll (file_formats mimeTypeMapping w).2 = downloads_coll w.
Proof.
  destruct (file_formats mimeTypeMapping w) as [r w2] eqn:Hrun.
  unfold file_formats, try_catch, bind at 1 in Hrun.
  destruct (bucket_getFiles_keeps w) as (o1 & w1 & Hlist & Hb1 & Hf1 & Hd1).
  rewrite Hlist in Hrun. destruct o1 as [files|e].
  - destruct (count_formats_keeps files [] w1) as (o & w' & Hcount & Hb & Hf & Hd).
    unfold bind at 1 in Hrun. rewrite Hcount in Hrun.
    destruct o; inversion Hrun; subst; simpl; repeat split; congruence.
  - inversion Hrun; subst. simpl. repeat split; congruence.
Qed.

(** X8. The statistics request and the formats request only read: whatever
    rejects, the bucket, the records and the download collection are after
    the request what they were before. *)
Theorem aggregates_read_only w :
  (bucket (statistics w).2 = bucket w ∧
   files_coll (statistics w).2 = files_coll w ∧
   downloads_coll (statistics w).2 = downloads_coll w) ∧
  (bucket (file_formats mimeTypeMapping w).2 = bucket w ∧
   files_coll (file_formats mimeTypeMapping w).2 = files_coll w ∧
   downloads_coll (file_formats mimeTypeMapping w).2 = downloads_coll w).
Proof. split; [apply statistics_reads_only|apply file_formats_reads_only]. Qed.

(** X9. When the download count or the listing rejects, the statistics
    request answers 500 at once: it asks for no object's metadata. *)
Theorem statistics_fails_early w :
  next_fault (faults w) = true ∨ next_fault (tail (faults w)) = true →
  ∃ w',
    statistics w =
      (Returned (mkResponse 500 (ErrorBody "Failed to fetch statistics")), w') ∧
    new_calls w w' =
      if next_fault (faults w) then [(CollectionGet "downloads", false)]
      else [(CollectionGet "downloads", true); (BucketGetFiles, false)].
Proof.
  destruct w as [b c d t f tr co]. unfold new_calls. simpl. run_all.
  destruct f as [|[] [|[] f]]; simpl; intros [?|?]; try discriminate;
    eexists; (split; [reflexivity|]); simpl;
    rewrite <- ?app_assoc; by rewrite drop_app_length.
Qed.

(** *** The histogram *)

Lemma map_get_set m k v k' :
  map_get (map_set m k v) k' = if decide (k = k') then Some v else map_get m k'.
Proof.
  induction m as [|[k0 v0] m IH]; simpl.
  - destruct (decide (k = k')); [done|done].
  - destruct (decide (k0 = k)) as [->|Hne]; simpl.
    + destruct (decide (k = k')); [done|done].
    + destruct (decide (k0 = k')) as [->|Hne'].
      * by rewrite decide_False by done.
      * apply IH.
Qed.

Lemma map_set_keys m k v k' :
  k' ∈ (map_set m k v).*1 ↔ k' = k ∨ k' ∈ m.*1.
Proof.
  induction m as [|[k0 v0] m IH]; simpl.
  - rewrite list_elem_of_singleton. split; [by left|].
    by intros [?|?%elem_of_nil].
  - destruct (decide (k0 = k)) as [->|Hne]; simpl.
    + rewrite !elem_of_cons. tauto.
    + rewrite !elem_of_cons, IH. tauto.
Qed.

Lemma map_set_NoDup m k v : NoDup m.*1 → NoDup (map_set m k v).*1.
Proof.
  induction m as [|[k0 v0] m IH]; simpl; intros Hnd.
  - apply NoDup_singleton.
  - apply NoDup_cons in Hnd as [Hnotin Hnd].
    destruct (decide (k0 = k)) as [->|Hne]; simpl.
    + by apply NoDup_cons.
    + apply NoDup_cons. split; [|by apply IH].
      rewrite map_set_keys. intros [->|Hin]; done.
Qed.

Lemma map_get_elem m k v : NoDup m.*1 → (k, v) ∈ m ↔ map_get m k = Some v.
Proof.
  induction m as [|[k0 v0] m IH]; simpl; intros Hnd.
  - split; [by intros ?%elem_of_nil|done].
  - apply NoDup_cons in Hnd as [Hnotin Hnd].
    rewrite elem_of_cons. destruct (decide (k0 = k)) as [->|Hne].
    + split; [|by intros [= ->]; left].
      intros [[= ->]|Hin]; [done|].
      destruct Hnotin. apply list_elem_of_fmap. by exists (k, v).
    + rewrite <- IH by done. split; [|by right].
      by intros [[= -> ->]|Hin].
Qed.

(** The count of a format after the labels [labels] went into [formats]. *)
Lemma tally_get labels : ∀ formats f,
  map_get (foldl count_one formats labels) f =
    let n := length (filter (eq f) labels) in
    match map_get formats f with
    | Some v => Some (v + n)
    | None => if decide (n = 0) then None else Some n
    end.
Proof.
  induction labels as [|l labels IH]; intros formats f.
  - simpl. destruct (map_get formats f) as [v|]; [f_equal; lia|done].
  - cbn [foldl]. rewrite IH. unfold count_one. rewrite map_get_set.
    rewrite filter_cons. destruct (decide (l = f)) as [->|Hne].
    + rewrite decide_True by done. cbn [length].
      destruct (map_get formats f) as [v|]; simpl.
      * f_equal. lia.
      * done.
    + rewrite (decide_False (P := f = l)) by congruence. done.
Qed.

Lemma tally_NoDup labels : ∀ formats,
  NoDup formats.*1 → NoDup (foldl count_one formats labels).*1.
Proof.
  induction labels as [|l labels IH]; intros formats Hnd; [done|].
  cbn [foldl]. apply IH. by apply map_set_NoDup.
Qed.

(** The counting loop with no fault due: it tallies the formats of the
    objects in the order of the listing. *)
Lemma count_formats_returns files : ∀ formats w,
  (∀ f, f ∈ files → is_Some (bucket w !! f)) →
  fault_free (length files) (faults w) →
  ∃ w',
    count_formats mimeTypeMapping files formats w =
      (Returned (foldl count_one formats
                   (omap (fun file => bucket w !! file ≫= format_of mimeTypeMapping) files)),
       w') ∧
    bucket w' = bucket w.
Proof.
  induction files as [|file files IH]; intros formats w Hin Hfree; [by eexists|].
  apply fault_free_next in Hfree as [Hnext Hfree].
  destruct (Hin file) as [obj Hobj]; [by left|].
  set (w1 := record_call (BlobGetMetadata file) true (set_faults (tail (faults w)) w)).
  cbn [count_formats omap]. unfold bind at 1.
  rewrite (blob_getMetadata_proceeds file w obj) by done. fold w1.
  cbn [list_omap]. rewrite Hobj. cbn [mbind option_bind md_contentType]. unfold format_of at 1.
  assert (Hrest : ∀ fm, ∃ w',
    count_formats mimeTypeMapping files fm w1 =
      (Returned (foldl count_one fm
                   (omap (fun file => bucket w !! file ≫= format_of mimeTypeMapping) files)),
       w') ∧ bucket w' = bucket w).
  { intros fm. apply (IH fm w1); [|done]. intros f Hf. apply Hin. by right. }
  destruct (contentType obj) as [ct|]; [destruct (non_empty ct)|]; cbn [foldl]; apply Hrest.
Qed.

Lemma listing_formats (b : gmap string BlobObject) (l : list (string * BlobObject)) :
  (∀ kv, kv ∈ l → b !! kv.1 = Some kv.2) →
  omap (fun file => b !! file ≫= format_of mimeTypeMapping) l.*1 =
  omap (fun kv => format_of mimeTypeMapping kv.2) l.
Proof.
  induction l as [|kv l IH]; intros Hl; [done|].
  cbn [fmap list_fmap omap list_omap]. rewrite (Hl kv) by (by left). cbn [mbind option_bind].
  rewrite IH by (intros kv' Hkv'; apply Hl; by right). done.
Qed.

Lemma filter_omap_length {A B} `{EqDecision B} (g : A → option B) (f : B) (l : list A) :
  length (filter (eq f) (omap g l)) = length (filter (fun a => g a = Some f) l).
Proof.
  induction l as [|a l IH]; [done|].
  cbn [omap list_omap]. rewrite (filter_cons (fun a => g a = Some f)).
  destruct (g a) as [x|] eqn:Hg.
  - rewrite filter_cons. destruct (decide (f = x)) as [->|Hne].
    + rewrite decide_True by done. simpl. by rewrite IH.
    + rewrite decide_False by congruence. done.
  - rewrite decide_False by done. done.
Qed.

(** X10. With no fault due, the formats request answers 200 with one entry
    for each format that occurs, and the count of a format is the number of
    objects of the bucket whose content type, not empty, is classified as
    that format.  Objects without a content type are counted nowhere. *)
Theorem file_formats_histogram w :
  fault_free (S (size (bucket w))) (faults w) →
  ∃ formats w',
    file_formats mimeTypeMapping w = (Returned (mkResponse 200 (Formats formats)), w') ∧
    NoDup formats.*1 ∧
    ∀ f n,
      (f, n) ∈ formats ↔
      0 < n ∧
      n = length (filter (fun kv => format_of mimeTypeMapping kv.2 = Some f)
                         (map_to_list (bucket w))).
Proof.
  intros Hfree. apply fault_free_next in Hfree as [Hnext Hfree].
  set (listing := (map_to_list (bucket w)).*1).
  set (w1 := record_call BucketGetFiles true (set_faults (tail (faults w)) w)).
  assert (Hlist : bucket_getFiles w = (Returned listing, w1)).
  { unfold bucket_getFiles, external, fault_due. by rewrite Hnext. }
  destruct (count_formats_returns listing [] w1) as (w' & Hcount & _).
  { intros f Hf. apply list_elem_of_fmap in Hf as [[f' obj] [-> Hf]].
    apply elem_of_map_to_list in Hf. simpl. eauto. }
  { simpl. unfold listing. by rewrite length_fmap, length_map_to_list. }
  eexists _, w'. split; [|split].
  - unfold file_formats, try_catch, bind at 1. rewrite Hlist.
    unfold bind at 1. by rewrite Hcount.
  - by apply tally_NoDup, NoDup_nil.
  - intros f n. rewrite map_get_elem by (by apply tally_NoDup, NoDup_nil).
    rewrite tally_get. cbn [map_get]. cbv zeta.
    change (bucket w1) with (bucket w). unfold listing.
    rewrite listing_formats by (intros [k v] Hkv; by apply elem_of_map_to_list).
    rewrite filter_omap_length.
    destruct (decide (_ = 0)) as [H0|H0].
    + split; [done|]. intros [Hpos ->]. lia.
    + split; [intros [= <-]; split; [lia|done]|]. by intros [_ ->].
Qed.

(** ** Upload and statistics together *)

Lemma dom_write_blobs pairs : ∀ b : gmap string BlobObject,
  dom (write_blobs pairs b) =
  dom b ∪ list_to_set ((fun p : UploadedFile * string => "files/" ++ p.2) <$> pairs).
Proof.
  induction pairs as [|p pairs IH]; intros b.
  - simpl. by rewrite (right_id_L ∅ (∪)).
  - unfold write_blobs in *. cbn [foldl]. rewrite IH, dom_insert_L.
    cbn [fmap list_fmap list_to_set].
    rewrite (comm_L (∪) {[ "files/" ++ p.2 ]} (dom b)).
    by rewrite <- (assoc_L (∪)).
Qed.

Lemma statistics_totalFiles w code stats w' :
  statistics w = (Returned (mkResponse code (StatisticsBody stats)), w') →
  totalFiles stats = size (bucket w) ∧ totalDownloads stats = size (downloads_coll w).
Proof.
  intros Hrun.
  destruct (next_fault (faults w)) eqn:H0.
  { destruct (statistics_rejected w) as [w1 Hrej]; [by left|]. congruence. }
  destruct (next_fault (tail (faults w))) eqn:H1.
  { destruct (statistics_rejected w) as [w1 Hrej]; [by right|]. congruence. }
  destruct (statistics_answers w H0 H1) as (w1 & Hans & _).
  rewrite Hrun in Hans. inversion Hans; subst; clear Hans. simpl.
  by rewrite length_fmap, length_map_to_list.
Qed.

(** X11. After an upload answered 200, the statistics count the objects of
    the bucket before together with the paths of the batch, each path once:
    a name that was there, or that comes twice in the batch, adds nothing.
    For names that are new and different from each other, [totalFiles]
    grows by the size of the batch.  [totalDownloads] is what it was. *)
Theorem upload_then_statistics files fileNames w body w1 code stats w2 :
  upload signedUrl (Some files) (Some fileNames) w = (Returned (mkResponse 200 body), w1) →
  statistics w1 = (Returned (mkResponse code (StatisticsBody stats)), w2) →
  totalFiles stats =
    size (dom (bucket w) ∪ list_to_set ((fun name => "files/" ++ name) <$> fileNames)) ∧
  totalDownloads stats = size (downloads_coll w) ∧
  (NoDup fileNames →
   (∀ name, name ∈ fileNames → bucket w !! ("files/" ++ name) = None) →
   totalFiles stats = size (bucket w) + length files).
Proof.
  intros Hup Hstat.
  apply upload_answered in Hup as (Hlen & _ & _ & Hb & Hd & _).
  apply statistics_totalFiles in Hstat as [Hfiles Hdown].
  assert (Hpaths : (fun p : UploadedFile * string => "files/" ++ p.2) <$> zip files fileNames
                   = (fun name => "files/" ++ name) <$> fileNames).
  { rewrite <- (snd_zip files fileNames) at 2 by lia. by rewrite <- list_fmap_compose. }
  assert (Hdom : totalFiles stats =
    size (dom (bucket w) ∪ list_to_set ((fun name => "files/" ++ name) <$> fileNames))).
  { by rewrite Hfiles, <- size_dom, Hb, dom_write_blobs, Hpaths. }
  split; [done|]. split; [congruence|].
  intros Hnd Hnew. rewrite Hdom, size_union.
  - rewrite size_dom, size_list_to_set, length_fmap; [lia|].
    apply NoDup_fmap; [|done]. apply _.
  - intros path Hin Hin'. apply elem_of_list_to_set, list_elem_of_fmap in Hin' as [name [-> Hname]].
    apply elem_of_dom in Hin as [obj Hobj]. rewrite (Hnew name Hname) in Hobj. discriminate.
Qed.

(** ** The storage total of saved objects *)






(** X13. An upload keeps the sizes right: in a bucket whose objects carry
    the size [save] records, they still do after an upload answered 200,
    the new objects included. *)
Theorem upload_keeps_sizes files fileNames w body w' :
  sizes_as_saved (bucket w) →
  upload signedUrl (Some files) (Some fileNames) w = (Returned (mkResponse 200 body), w') →
  sizes_as_saved (bucket w').
Proof.
  intros Hsaved Hup path obj Hobj.
  apply upload_answered in Hup as (_ & _ & _ & Hb & _).
  rewrite Hb, lookup_write_blobs in Hobj.
  destruct (last_write (zip files fileNames) path) as [o|] eqn:Hlast; [|by apply (Hsaved path)].
  inversion Hobj; subst o; clear Hobj.
  clear -Hlast. induction (zip files fileNames) as [|p pairs IH]; [done|].
  cbn [last_write] in Hlast. destruct (last_write pairs path); [by apply IH|].
  destruct (decide ("files/" ++ p.2 = path)); [|done].
  by inversion Hlast.
Qed.

End Further.

(** ** The CORS policy *)

(** X14. The policy lets a request through when it names no origin, or an
    empty one, or exactly one of the six allowed origins, and refuses every
    other.  The comparison is on the whole string: an allowed origin with
    anything after it, a port, a path or a further domain, is refused. *)
Theorem cors_origin_exact :
  cors_origin None = true ∧
  (∀ o, cors_origin (Some o) = true ↔ o = EmptyString ∨ o ∈ allowedOrigins) ∧
  (∀ o rest, o ∈ allowedOrigins → rest ≠ EmptyString →
             cors_origin (Some (o ++ rest)) = false).
Proof.
  split; [done|]. split.
  - intros o. unfold cors_origin. rewrite orb_true_iff, bool_decide_eq_true.
    destruct o; simpl; split; intros [H|H]; try discriminate; auto.
  - intros o rest Ho Hrest. unfold cors_origin.
    apply orb_false_iff. split.
    + unfold allowedOrigins in Ho.
      repeat (apply elem_of_cons in Ho as [->|Ho]; [reflexivity|]).
      by apply elem_of_nil in Ho.
    + apply bool_decide_eq_false. intros Hin. unfold allowedOrigins in Ho, Hin.
      repeat (apply elem_of_cons in Ho as [->|Ho];
              [repeat (apply elem_of_cons in Hin as [Hin|Hin];
                       [cbv [String.append] in Hin; by simplify_eq|]);
               by apply elem_of_nil in Hin|]).
      by apply elem_of_nil in Ho.
Qed.

Section FurtherSite.

Variable signedUrl : string → string.
Variable headerAccepted : string → option string → bool.

Ltac run_site :=
  cbv beta iota zeta delta
    [download authenticate site_try site_bind site_ret site_raise lift console_log
     site_call went_through blob_exists fetch users_query set_header relayed
     set_world record_site_calls
     world users_coll network site_trace site_log
     new_calls
     try_catch bind ret get_world console_error console_warn
     external fault_due next_fault succeeded blob_getSignedUrl
     set_bucket set_files_coll set_faults record_call record_log
     bucket files_coll downloads_coll clock faults trace console
     tail fst snd].

(** ** Download *)

Lemma download_absent fileName s :
  fault_due (world s) = false →
  bucket (world s) !! ("files/" ++ fileName) = None →
  ∃ s',
    download signedUrl headerAccepted fileName s =
      (Done (Json (mkResponse 404 (Message "File not found"))), s') ∧
    site_trace s' = (site_trace s ++ [(BlobExists ("files/" ++ fileName), true)])%list ∧
    trace (world s') = trace (world s).
Proof.
  destruct s as [[b c d t f tr co] us net st lg]. simpl. intros Hf Hb. run_site.
  rewrite Hb. rewrite bool_decide_eq_false_2 by (by intros [x Hx]).
  destruct f as [|[] f]; try discriminate; by eexists.
Qed.

(** X15. A download of a name with no blob behind it, once the existence
    test went through, is answered 404 after that one call: no link is
    signed and nothing is fetched. *)
Theorem download_existence_gate fileName s :
  fault_due (world s) = false →
  bucket (world s) !! ("files/" ++ fileName) = None →
  ∃ s',
    download signedUrl headerAccepted fileName s =
      (Done (Json (mkResponse 404 (Message "File not found"))), s') ∧
    site_trace s' = (site_trace s ++ [(BlobExists ("files/" ++ fileName), true)])%list ∧
    trace (world s') = trace (world s).
Proof. apply download_absent. Qed.

Lemma download_present fileName s obj :
  fault_free 3 (faults (world s)) →
  bucket (world s) !! ("files/" ++ fileName) = Some obj →
  let path := "files/" ++ fileName in
  let reply := network s (signedUrl path) in
  ∃ s',
    download signedUrl headerAccepted fileName s =
      (Done (relayed headerAccepted fileName reply), s') ∧
    site_trace s' =
      (site_trace s ++ [ (BlobExists path, true);
                         (Core (BlobGetSignedUrl path), true);
                         (Fetch (signedUrl path), true) ])%list.
Proof.
  destruct s as [[b c d t f tr co] us net st lg]. simpl. intros Hfree Hb.
  unfold fault_free in Hfree.
  destruct f as [|[] [|[] [|[] f]]]; simpl in Hfree;
    try (exfalso; repeat (apply Forall_cons in Hfree as [? Hfree]); congruence).
  all: run_site; rewrite Hb; rewrite bool_decide_eq_true_2 by eauto.
  all: simpl; rewrite drop_app_length; simpl;
    destruct (fetch_ok (net (signedUrl ("files/" ++ fileName)))); simpl;
    try destruct (headerAccepted "Content-Disposition" _); simpl;
    try destruct (headerAccepted "Content-Type" _); simpl;
    rewrite ?drop_all; simpl; rewrite <- ?app_assoc.
  all: eexists; (split; [reflexivity|]); simpl; by rewrite ?app_nil_r.
Qed.

(** X16. A download of a name with a blob behind it, with no fault due in
    its three calls, tests the blob, signs a new link and fetches that
    link, in this order, and its answer is the reply of the network to that
    link: when the reply is ok and the response takes both headers, an
    attachment named after the file with the reply's content type and
    body; in every other case 500.  Neither the stored link of a record nor
    the blob itself is read. *)
Theorem download_relays_reply fileName s obj :
  fault_free 3 (faults (world s)) →
  bucket (world s) !! ("files/" ++ fileName) = Some obj →
  let path := "files/" ++ fileName in
  let reply := network s (signedUrl path) in
  ∃ s',
    download signedUrl headerAccepted fileName s =
      (Done (relayed headerAccepted fileName reply), s') ∧
    site_trace s' =
      (site_trace s ++ [ (BlobExists path, true);
                         (Core (BlobGetSignedUrl path), true);
                         (Fetch (signedUrl path), true) ])%list.
Proof. apply download_present. Qed.

(** X17. Downloads follow the bucket.  After a delete request answered 200
    for a record, a download of that record's name is answered 404, the
    existence test going through. *)
Theorem download_after_delete fileId w record body w1 users net :
  files_coll w !! fileId = Some record →
  delete_file fileId w = (Returned (mkResponse 200 body), w1) →
  fault_due w1 = false →
  ∃ s',
    download signedUrl headerAccepted (fileName record) (site_of w1 users net) =
      (Done (Json (mkResponse 404 (Message "File not found"))), s').
Proof.
  intros Hrec Hrun Hf.
  destruct (delete_file_outcome fileId w) as (r & w' & Hrun' & Hout).
  rewrite Hrun in Hrun'. inversion Hrun'; subst r w'; clear Hrun'.
  inversion Hout as [| | | |r w' Hr ? Hb ? ?]; subst.
  rewrite Hrec in Hr. inversion Hr; subst r.
  destruct (download_absent (fileName record) (site_of w1 users net)) as (s' & Hdown & _);
    [done| |by exists s'].
  simpl. rewrite Hb. apply lookup_delete_eq.
Qed.

(** X18. After an upload answered 200, a download of any name of the batch,
    with no fault due in its three calls, passes the existence test and
    relays what the network replies to a new link for [files/<name>]. *)
Theorem download_after_upload files fileNames w body w1 name users net :
  upload signedUrl (Some files) (Some fileNames) w = (Returned (mkResponse 200 body), w1) →
  name ∈ fileNames →
  fault_free 3 (faults w1) →
  let reply := net (signedUrl ("files/" ++ name)) in
  ∃ s',
    download signedUrl headerAccepted name (site_of w1 users net) =
      (Done (relayed headerAccepted name reply), s').
Proof.
  intros Hup Hname Hfree reply.
  apply upload_answered in Hup as (Hlen & _ & _ & Hb & _).
  apply list_elem_of_lookup in Hname as [i Hi].
  destruct (lookup_lt_is_Some_2 files i) as [file Hfile].
  { rewrite Hlen. by eapply lookup_lt_Some. }
  destruct (write_blobs_written (zip files fileNames) (bucket w) (file, name)) as [obj Hobj].
  { apply list_elem_of_lookup. exists i. apply lookup_zip_with_Some. eauto. }
  destruct (download_present name (site_of w1 users net) obj) as (s' & Hdown & _);
    [done|by simpl; rewrite Hb|by exists s'].
Qed.

(** X19. Whatever rejects and whatever the network replies, a download
    changes no store: the bucket, the records, the downloads and the users
    are what they were.  In particular it adds nothing to the download
    collection that the statistics count. *)
Theorem download_reads_only fileName s :
  let s' := (download signedUrl headerAccepted fileName s).2 in
  bucket (world s') = bucket (world s) ∧
  files_coll (world s') = files_coll (world s) ∧
  downloads_coll (world s') = downloads_coll (world s) ∧
  users_coll s' = users_coll s.
Proof.
  destruct s as [[b c d t f tr co] us net st lg]. run_site.
  destruct (bool_decide (is_Some (b !! ("files/" ++ fileName))));
    destruct f as [|[] [|[] [|[] f]]]; simpl;
    try destruct (fetch_ok (net (signedUrl ("files/" ++ fileName)))); simpl;
    try destruct (headerAccepted "Content-Disposition" _); simpl;
    try destruct (headerAccepted "Content-Type" _); done.
Qed.

(** ** Sign-in *)

Lemma authenticate_outcome username password s :
  ∃ s',
    authenticate username password s =
      (Done (if fault_due (world s)
             then Json (mkResponse 500 (Message "Failed to authenticate user"))
             else match first_user (users_coll s) username with
                  | Some doc =>
                      if decide (user_password doc = Some password)
                      then AuthResult 200 true None
                      else AuthResult 401 false (Some "Invalid username or password")
                  | None => AuthResult 401 false (Some "Invalid username or password")
                  end),
       s') ∧
    world s' = (if fault_due (world s)
                then record_log LogError "Error authenticating user:"
                else fun w => w) (set_faults (tail (faults (world s))) (world s)) ∧
    users_coll s' = users_coll s ∧
    site_trace s' = (site_trace s ++ [(UsersQuery username, negb (fault_due (world s)))])%list.
Proof.
  destruct s as [[b c d t f tr co] us net st lg]. run_site. unfold first_user. simpl.
  destruct f as [|[] f]; simpl; rewrite ?drop_all, ?app_nil_r;
    try destruct (filter _ us) as [|[id doc] rest]; simpl;
    try destruct (decide (user_password doc = Some password)); by eexists.
Qed.

(** X20. Once its query went through, the sign-in answers 200 exactly when
    the first document with the username has the password sent.  In every
    other case, no such user or another password, the answer is one and the
    same 401.  A query that rejects is answered 500.  The request makes the
    one query and changes no store. *)
Theorem authenticate_decides username password s :
  ∃ response s',
    authenticate username password s = (Done response, s') ∧
    (fault_due (world s) = true →
       response = Json (mkResponse 500 (Message "Failed to authenticate user"))) ∧
    (fault_due (world s) = false →
       (response = AuthResult 200 true None ∨
        response = AuthResult 401 false (Some "Invalid username or password")) ∧
       (response = AuthResult 200 true None ↔
        ∃ doc, first_user (users_coll s) username = Some doc ∧
               user_password doc = Some password)) ∧
    users_coll s' = users_coll s ∧
    bucket (world s') = bucket (world s) ∧
    files_coll (world s') = files_coll (world s) ∧
    downloads_coll (world s') = downloads_coll (world s) ∧
    site_trace s' = (site_trace s ++ [(UsersQuery username, negb (fault_due (world s)))])%list.
Proof.
  destruct (authenticate_outcome username password s) as (s' & Hrun & Hw & Hu & Ht).
  eexists _, s'. split; [exact Hrun|]. split; [|split; [|split; [done|]]].
  - by intros ->.
  - intros ->. destruct (first_user (users_coll s) username) as [doc|].
    + destruct (decide (user_password doc = Some password)) as [Hp|Hp].
      * split; [by left|]. split; [eauto|done].
      * split; [by right|]. split; [done|]. intros (doc' & [= <-] & Hp'). done.
    + split; [by right|]. split; [done|]. by intros (doc' & ? & _).
  - rewrite Hw. by destruct (fault_due (world s)), (world s).
Qed.

(** X21. Of two accounts with one username only the first can sign in: the
    password of the second is refused, as any wrong password is. *)
Theorem authenticate_first_account_only username p1 p2 id1 id2 before between after s :
  users_coll s = (before ++ (id1, mkUserDoc (Some username) (Some p1)) :: between
                  ++ (id2, mkUserDoc (Some username) (Some p2)) :: after)%list →
  (∀ doc, doc ∈ before → user_username doc.2 ≠ Some username) →
  p1 ≠ p2 →
  fault_due (world s) = false →
  ∃ s',
    authenticate username p2 s =
      (Done (AuthResult 401 false (Some "Invalid username or password")), s').
Proof.
  intros Husers Hbefore Hp Hf.
  destruct (authenticate_outcome username p2 s) as (s' & Hrun & _).
  exists s'. rewrite Hrun, Hf.
  assert (Hfirst : first_user (users_coll s) username
                   = Some (mkUserDoc (Some username) (Some p1))).
  { unfold first_user. rewrite Husers, filter_app, filter_cons.
    rewrite decide_True by done.
    assert (Hnone : filter (fun doc : string * UserDoc => user_username doc.2 = Some username)
                           before = []).
    { clear -Hbefore. induction before as [|doc before IH]; [done|].
      rewrite filter_cons, decide_False by (apply Hbefore; by left).
      apply IH. intros doc' Hdoc'. apply Hbefore. by right. }
    by rewrite Hnone. }
  rewrite Hfirst. simpl. by rewrite decide_False by congruence.
Qed.

End FurtherSite.

(** * The theorems at concrete requests *)

Lemma upload_partial_failure_witness :
  let w := set_faults [false; false; false; true] empty_world in
  ∃ w',
    upload example_signedUrl (Some [report; notes; photo])
           (Some ["r.pdf"; "n.txt"; "p.jpg"]) w =
      (Returned (mkResponse 500 (Message "Failed to upload files")), w') ∧
    size (files_coll w') = 1 ∧
    new_calls w w' =
      [ (BlobSave "files/r.pdf" [Byte.x25; Byte.x50] "application/pdf", true);
        (BlobGetSignedUrl "files/r.pdf", true);
        (CollectionAdd (mkFileRecord "r.pdf" 0 "https://storage.test/files/r.pdf?sig"), true);
        (BlobSave "files/n.txt" [Byte.x68; Byte.x69; Byte.x0a] "text/plain", false) ].
Proof.
  intros w.
  destruct (upload_partial_failure example_signedUrl [report; notes; photo]
              ["r.pdf"; "n.txt"; "p.jpg"] w 1 0 [] (notes, "n.txt"))
    as (w' & Hrun & _ & Hsize & _ & _ & Hcalls & _);
    [reflexivity|reflexivity|lia|reflexivity|].
  exists w'. split; [exact Hrun|]. split; [exact Hsize|exact Hcalls].
Defined.



Lemma upload_counts_witness :
  let w' := (upload example_signedUrl (Some [report; notes; photo])
                    (Some ["r.pdf"; "n.txt"; "p.jpg"]) empty_world).2 in
  size (files_coll w') = 3 ∧ blob_writes (new_calls empty_world w') = 3.
Proof.
  intros w'.
  destruct (upload_counts example_signedUrl [report; notes; photo]
              ["r.pdf"; "n.txt"; "p.jpg"] empty_world
              (Uploaded "Files uploaded successfully"
                 [ "https://storage.test/files/r.pdf?sig";
                   "https://storage.test/files/n.txt?sig";
                   "https://storage.test/files/p.jpg?sig" ]) w')
    as (_ & urls & _ & _ & _ & _ & Hsize & _ & Hwrites & _); [vm_compute; reflexivity|].
  split; [exact Hsize|exact Hwrites].
Defined.

Lemma delete_blob_before_record_witness :
  let w := set_faults [false; false; true] one_file_world in
  let w' := (delete_file "id1" w).2 in
  bucket w' !! "files/a.txt" = None ∧
  files_coll w' !! "id1" = Some (mkFileRecord "a.txt" 7 "https://storage.test/files/a.txt?sig").
Proof.
  intros w w'.
  destruct (delete_blob_before_record "id1" w
              (mkFileRecord "a.txt" 7 "https://storage.test/files/a.txt?sig")
              (mkResponse 500 (Message "Failed to delete file")) w')
    as [_ H]; [vm_compute; reflexivity|vm_compute; reflexivity|].
  destruct H as (_ & _ & Hb & _ & Hf); [vm_compute; reflexivity|]. exact (conj Hb Hf).
Defined.

Lemma delete_file_complete_witness :
  (let w' := (delete_file "id1" one_file_world).2 in
   bucket w' !! "files/a.txt" = None ∧ files_coll w' !! "id1" = None) ∧
  (∃ w', delete_file "id9" one_file_world =
           (Returned (mkResponse 404 (Message "File not found")), w') ∧
         bucket w' = bucket one_file_world ∧ files_coll w' = files_coll one_file_world).
Proof.
  destruct (delete_file_complete example_toLocaleString "id1" one_file_world) as [Hdone _].
  destruct (delete_file_complete example_toLocaleString "id9" one_file_world) as [_ Hnone].
  split.
  - destruct (Hdone (Message "File deleted successfully") (delete_file "id1" one_file_world).2)
      as (record & Hrec & Hblob & Hgone & _); [vm_compute; reflexivity|].
    inversion Hrec; subst record. split; [exact Hblob|exact Hgone].
  - destruct Hnone as (w' & Hrun & Hb & Hf & _);
      [vm_compute; reflexivity|vm_compute; reflexivity|].
    exists w'. split; [exact Hrun|]. split; [exact Hb|exact Hf].
Defined.

Lemma statistics_values_witness :
  let stats := mkStatistics 5 "1.51" 3 in
  totalFiles stats = size (bucket stats_world) ∧
  ∃ n : Z,
    (GiB * (2 * n - 1) ≤ 200 * (1610612736 + 5368710) < GiB * (2 * n + 1))%Z ∧
    storageUsed stats =
      pretty (n `div` 100)%Z ++ "." ++ pretty ((n `div` 10) `mod` 10)%Z
      ++ pretty (n `mod` 10)%Z.
Proof.
  intros stats.
  assert (Hrun : statistics stats_world =
                 (Returned (mkResponse 200 (StatisticsBody stats)),
                  (statistics stats_world).2))
    by (vm_compute; reflexivity).
  assert (Hsizes : omap id (readable_sizes (bucket stats_world)
                              (drop 2 (faults stats_world))
                              (map_to_list (bucket stats_world)).*1)
                   = ["1610612736"; "5368710"])
    by (vm_compute; reflexivity).
  destruct (statistics_values stats_world 200 stats _ Hrun)
    as (_ & _ & _ & Hfiles & Hused).
  split; [exact Hfiles|].
  apply (Hused [1610612736; 5368710]%Z).
  - rewrite Hsizes.
    repeat first [apply Forall2_nil_2 | apply Forall2_cons_2; [split; [vm_compute; reflexivity|lia]|]].
  - vm_compute. discriminate.
Defined.

Lemma statistics_skips_bad_objects_witness :
  ∃ w',
    statistics (set_faults [false; false; false; true] stats_world) =
      (Returned (mkResponse 200 (StatisticsBody (mkStatistics 5 "0.01" 3))), w') ∧
    (new_calls (set_faults [false; false; false; true] stats_world) w').*1 =
      [ CollectionGet "downloads"; BucketGetFiles; BlobGetMetadata "files/c";
        BlobGetMetadata "files/a.bin"; BlobGetMetadata "files/b.pdf" ].
Proof.
  destruct (statistics_skips_bad_objects (set_faults [false; false; false; true] stats_world))
    as (stats & w' & Hrun & Hcalls & _); [reflexivity|reflexivity|].
  exists w'. split; [|exact Hcalls].
  rewrite Hrun. f_equal. pose proof Hrun as Hrun'.
  vm_compute in Hrun'. inversion Hrun'. reflexivity.
Defined.

(** With no entry for them in the table, [plain] gets no label, and
    [a/b/c] gets [b], not the substring [b/c] after its [/]. *)
Lemma classify_not_always_a_label :
  classify ∅ "plain" = VUndefined ∧
  classify ∅ "a/b/c" = VString "b" ∧
  after_separator "a/b/c" = Some "b/c".
Proof. repeat split. Qed.

Lemma classify_cases_witness :
  classify example_mapping "application/pdf" = VString "PDF" ∧
  classify example_mapping "application/x-unknown" = VString "x-unknown" ∧
  classify example_mapping "plain" = VUndefined.
Proof.
  destruct (classify_cases example_mapping "application/pdf") as (Hmapped & _ & _).
  destruct (classify_cases example_mapping "application/x-unknown") as (_ & Hsub & _).
  destruct (classify_cases example_mapping "plain") as (_ & _ & Hnone).
  split; [apply Hmapped; [reflexivity|discriminate]|].
  split; [|apply Hnone; reflexivity].
  destruct (Hsub "x-unknown") as [_ H]; [reflexivity|reflexivity|].
  apply H. reflexivity.
Defined.

Lemma file_formats_no_recovery_witness :
  let w := set_faults [false; false; true] stats_world in
  ∃ w',
    file_formats example_mapping w =
      (Returned (mkResponse 500 (ErrorBody "Failed to fetch file formats")), w') ∧
    new_calls w w' =
      [ (BucketGetFiles, true); (BlobGetMetadata "files/c", true);
        (BlobGetMetadata "files/a.bin", false) ].
Proof.
  intros w.
  destruct (file_formats_no_recovery example_mapping w 1 [] "files/a.bin") as [H _];
    [reflexivity|reflexivity|].
  exact H.
Defined.

Lemma delete_dangling_record_stays_witness :
  (∃ w', delete_file "id1" dangling_world =
           (Returned (mkResponse 500 (Message "Failed to delete file")), w') ∧
         files_coll w' = files_coll dangling_world) ∧
  files_coll (delete_repeatedly 3 "id1" dangling_world) !! "id1" =
    Some (mkFileRecord "a.txt" 7 "https://storage.test/files/a.txt?sig").
Proof.
  destruct (delete_dangling_record_stays "id1" dangling_world
              (mkFileRecord "a.txt" 7 "https://storage.test/files/a.txt?sig"))
    as [(w' & Hrun & Hf & _) Hstay]; [reflexivity|reflexivity|].
  split; [exists w'; split; [exact Hrun|exact Hf]|exact (Hstay 3)].
Defined.

(** * The further properties at concrete requests *)

Lemma upload_last_write_wins_witness :
  let w' := (upload example_signedUrl (Some [report; notes])
                    (Some ["a.txt"; "a.txt"]) empty_world).2 in
  bucket w' !! "files/a.txt" = Some (blob_of notes) ∧
  bucket w' !! "files/b.txt" = None.
Proof.
  intros w'.
  destruct (upload_last_write_wins example_signedUrl [report; notes] ["a.txt"; "a.txt"]
              empty_world
              (Uploaded "Files uploaded successfully"
                 [ "https://storage.test/files/a.txt?sig";
                   "https://storage.test/files/a.txt?sig" ]) w')
    as [Hlast Hother]; [vm_compute; reflexivity|].
  split.
  - apply (Hlast 1 notes "a.txt"); [reflexivity|reflexivity|].
    intros [|[|j]] later Hj Hlater; [lia|lia|discriminate].
  - rewrite (Hother "files/b.txt"); [reflexivity|].
    intros name Hname Heq.
    repeat (apply elem_of_cons in Hname as [->|Hname]; [vm_compute in Heq; discriminate|]).
    by apply elem_of_nil in Hname.
Defined.

Lemma upload_retry_duplicates_witness :
  let w1 := (upload example_signedUrl (Some [notes]) (Some ["n.txt"]) empty_world).2 in
  let w2 := (upload example_signedUrl (Some [notes]) (Some ["n.txt"]) w1).2 in
  bucket w2 = bucket w1 ∧ size (files_coll w2) = 2.
Proof.
  intros w1 w2.
  destruct (upload_retry_duplicates example_signedUrl [notes] ["n.txt"] empty_world
              (Uploaded "Files uploaded successfully" ["https://storage.test/files/n.txt?sig"])
              w1
              (Uploaded "Files uploaded successfully" ["https://storage.test/files/n.txt?sig"])
              w2)
    as (Hb & _ & Hsize & _); [vm_compute; reflexivity|vm_compute; reflexivity|].
  split; [exact Hb|exact Hsize].
Defined.

Lemma list_files_exact_witness :
  ∃ entries,
    (list_files example_toLocaleString stats_world).1 =
      Returned (mkResponse 200 (FileList entries)) ∧
    length entries = size (files_coll stats_world).
Proof.
  destruct (list_files_exact example_toLocaleString stats_world)
    as (response & w' & Hrun & _ & _ & _ & _ & _ & Hok).
  destruct Hok as (entries & Hresponse & Hlen & _); [reflexivity|].
  exists entries. rewrite Hrun, Hresponse. split; [reflexivity|exact Hlen].
Defined.

Lemma upload_then_list_witness :
  let w1 := (upload example_signedUrl (Some [report; notes])
                    (Some ["r.pdf"; "n.txt"]) empty_world).2 in
  ∃ entries,
    (list_files example_toLocaleString w1).1 =
      Returned (mkResponse 200 (FileList entries)) ∧
    length entries = 2.
Proof.
  intros w1.
  assert (Hlist : ∃ entries w2,
            list_files example_toLocaleString w1 =
              (Returned (mkResponse 200 (FileList entries)), w2))
    by (vm_compute; eexists _, _; reflexivity).
  destruct Hlist as (entries & w2 & Hlist).
  destruct (upload_then_list example_signedUrl example_toLocaleString
              [report; notes] ["r.pdf"; "n.txt"] empty_world
              (Uploaded "Files uploaded successfully"
                 [ "https://storage.test/files/r.pdf?sig";
                   "https://storage.test/files/n.txt?sig" ])
              w1 200 entries w2) as [Hlen _]; [vm_compute; reflexivity|exact Hlist|].
  exists entries. rewrite Hlist. split; [reflexivity|exact Hlen].
Defined.

Lemma delete_touches_one_witness :
  let w' := (delete_file "id1" stats_world).2 in
  files_coll w' !! "id2" = files_coll stats_world !! "id2" ∧
  bucket w' !! "files/b.pdf" = bucket stats_world !! "files/b.pdf".
Proof.
  intros w'.
  destruct (delete_touches_one "id1" stats_world) as (Hrecords & Hblobs & _).
  split; [apply Hrecords; discriminate|].
  apply Hblobs. intros record Hrecord.
  vm_compute in Hrecord. inversion Hrecord. discriminate.
Defined.

Lemma delete_strands_namesake_witness :
  let w1 := (delete_file "id1" namesake_world).2 in
  files_coll w1 !! "id2" =
    Some (mkFileRecord "a.txt" 9 "https://storage.test/files/a.txt?sig") ∧
  ∃ w3, delete_file "id2" w1 =
          (Returned (mkResponse 500 (Message "Failed to delete file")), w3).
Proof.
  intros w1.
  destruct (delete_strands_namesake "id1" "id2" namesake_world
              (mkFileRecord "a.txt" 7 "https://storage.test/files/a.txt?sig")
              (mkFileRecord "a.txt" 9 "https://storage.test/files/a.txt?sig")
              (Message "File deleted successfully") w1)
    as (_ & Hrecord & Hstuck);
    [discriminate|vm_compute; reflexivity|vm_compute; reflexivity|reflexivity
    |vm_compute; reflexivity|].
  split; [exact Hrecord|]. exact (proj2 (Hstuck 0)).
Defined.

Lemma statistics_fails_early_witness :
  ∃ w',
    statistics (set_faults [true] stats_world) =
      (Returned (mkResponse 500 (ErrorBody "Failed to fetch statistics")), w').
Proof.
  destruct (statistics_fails_early (set_faults [true] stats_world)) as (w' & Hrun & _);
    [left; reflexivity|].
  by exists w'.
Defined.

Lemma file_formats_histogram_witness :
  ∃ formats,
    (file_formats example_mapping stats_world).1 =
      Returned (mkResponse 200 (Formats formats)) ∧
    (VString "PDF", 1) ∈ formats.
Proof.
  destruct (file_formats_histogram example_mapping stats_world)
    as (formats & w' & Hrun & _ & Hcount); [apply Forall_nil_2|].
  exists formats. rewrite Hrun. split; [reflexivity|].
  apply Hcount. split; [lia|vm_compute; reflexivity].
Defined.

Lemma upload_then_statistics_witness :
  let w1 := (upload example_signedUrl (Some [report; notes])
                    (Some ["r.pdf"; "n.txt"]) empty_world).2 in
  ∃ stats,
    (statistics w1).1 = Returned (mkResponse 200 (StatisticsBody stats)) ∧
    totalFiles stats = 2.
Proof.
  intros w1.
  assert (Hstats : ∃ stats w2,
            statistics w1 = (Returned (mkResponse 200 (StatisticsBody stats)), w2))
    by (vm_compute; eexists _, _; reflexivity).
  destruct Hstats as (stats & w2 & Hstats).
  destruct (upload_then_statistics example_signedUrl [report; notes] ["r.pdf"; "n.txt"]
              empty_world
              (Uploaded "Files uploaded successfully"
                 [ "https://storage.test/files/r.pdf?sig";
                   "https://storage.test/files/n.txt?sig" ])
              w1 200 stats w2) as (_ & _ & Hfresh);
    [vm_compute; reflexivity|exact Hstats|].
  exists stats. rewrite Hstats. split; [reflexivity|].
  rewrite Hfresh; [reflexivity| |intros name _; apply lookup_empty].
  apply (bool_decide_unpack _). vm_compute. exact I.
Defined.


Lemma upload_keeps_sizes_witness :
  sizes_as_saved
    (bucket (upload example_signedUrl (Some [notes]) (Some ["n.txt"]) one_file_world).2).
Proof.
  apply (upload_keeps_sizes example_signedUrl [notes] ["n.txt"] one_file_world
           (Uploaded "Files uploaded successfully" ["https://storage.test/files/n.txt?sig"])).
  - intros path obj Hobj. unfold one_file_world, bucket in Hobj.
    apply lookup_singleton_Some in Hobj as [_ <-]. reflexivity.
  - vm_compute. reflexivity.
Defined.

Lemma cors_origin_exact_witness :
  cors_origin (Some "https://anasib.tech") = true ∧
  cors_origin (Some "https://anasib.tech.evil.example") = false.
Proof.
  destruct cors_origin_exact as (_ & Hexact & Hlonger). split.
  - apply Hexact. right. repeat constructor.
  - apply (Hlonger "https://anasib.tech" ".evil.example"); [repeat constructor|discriminate].
Defined.

Lemma download_existence_gate_witness :
  ∃ s',
    download example_signedUrl example_headerAccepted "a.txt"
             (site_of dangling_world [] example_network) =
      (Done (Json (mkResponse 404 (Message "File not found"))), s').
Proof.
  destruct (download_existence_gate example_signedUrl example_headerAccepted "a.txt"
              (site_of dangling_world [] example_network)) as (s' & Hrun & _);
    [reflexivity|reflexivity|].
  by exists s'.
Defined.

Lemma download_relays_reply_witness :
  ∃ s',
    download example_signedUrl example_headerAccepted "a.txt"
             (site_of one_file_world [] example_network) =
      (Done (Attachment ("attachment; filename=" ++ dquote ++ "a.txt" ++ dquote)
                        (Some "text/plain") [Byte.x68; Byte.x69; Byte.x0a]),
       s').
Proof.
  destruct (download_relays_reply example_signedUrl example_headerAccepted "a.txt"
              (site_of one_file_world [] example_network) (blob_of notes))
    as (s' & Hrun & _); [apply Forall_nil_2|reflexivity|].
  exists s'. exact Hrun.
Defined.

Lemma download_after_delete_witness :
  ∃ s',
    download example_signedUrl example_headerAccepted "a.txt"
             (site_of (delete_file "id1" one_file_world).2 [] example_network) =
      (Done (Json (mkResponse 404 (Message "File not found"))), s').
Proof.
  apply (download_after_delete example_signedUrl example_headerAccepted "id1" one_file_world
           (mkFileRecord "a.txt" 7 "https://storage.test/files/a.txt?sig")
           (Message "File deleted successfully"));
    [reflexivity|vm_compute; reflexivity|reflexivity].
Defined.

Lemma download_after_upload_witness :
  let w1 := (upload example_signedUrl (Some [notes]) (Some ["n.txt"]) empty_world).2 in
  (∃ s', download example_signedUrl example_headerAccepted "n.txt"
                  (site_of w1 [] example_network) =
           (Done (Attachment ("attachment; filename=" ++ dquote ++ "n.txt" ++ dquote)
                             (Some "text/plain") [Byte.x68; Byte.x69; Byte.x0a]),
            s')) ∧
  (∃ s', download example_signedUrl example_headerAccepted "n.txt"
                  (site_of w1 [] dead_network) =
           (Done (Json (mkResponse 500 (Message "Failed to download file"))), s')).
Proof.
  intros w1.
  assert (Hup : upload example_signedUrl (Some [notes]) (Some ["n.txt"]) empty_world =
                (Returned (mkResponse 200
                   (Uploaded "Files uploaded successfully"
                      ["https://storage.test/files/n.txt?sig"])), w1))
    by (vm_compute; reflexivity).
  split.
  - apply (download_after_upload example_signedUrl example_headerAccepted _ _ _ _ _
             "n.txt" [] example_network Hup);
      [repeat constructor|apply Forall_nil_2].
  - apply (download_after_upload example_signedUrl example_headerAccepted _ _ _ _ _
             "n.txt" [] dead_network Hup);
      [repeat constructor|apply Forall_nil_2].
Defined.

Lemma authenticate_decides_witness :
  (authenticate "ann" "first" (site_of empty_world example_users example_network)).1 =
    Done (AuthResult 200 true None).
Proof.
  destruct (authenticate_decides "ann" "first"
              (site_of empty_world example_users example_network))
    as (response & s' & Hrun & _ & Hok & _).
  destruct Hok as [_ Hiff]; [reflexivity|].
  rewrite Hrun. simpl. f_equal. apply Hiff.
  exists (mkUserDoc (Some "ann") (Some "first")). split; reflexivity.
Defined.

Lemma authenticate_first_account_only_witness :
  ∃ s',
    authenticate "ann" "second" (site_of empty_world example_users example_network) =
      (Done (AuthResult 401 false (Some "Invalid username or password")), s').
Proof.
  apply (authenticate_first_account_only "ann" "first" "second" "u2" "u3"
           [("u1", mkUserDoc (Some "bob") (Some "b0b"))] [] []);
    [reflexivity| |discriminate|reflexivity].
  intros doc Hdoc. apply list_elem_of_singleton in Hdoc as ->. discriminate.
Defined.
